(** * i2ceeprom: the 24CXX EEPROM driver of [i2ceeprom.h]

    A shallow embedding of [eeprom_init], [eeprom_write] and [eeprom_read]
    over an abstract I2C master, together with the properties the
    specification states about addressing and page segmentation.

    Integer model.  The library targets AVR (avr-gcc), where [int] is 16 bits
    wide: a [uint8_t] is a [Z] reduced modulo 2^8, a [uint16_t] a [Z] reduced
    modulo 2^16, and an expression that mixes [uint16_t] with an [int]
    constant is computed in 16-bit unsigned arithmetic.  Every argument of
    [i2c_write] is converted to [unsigned char] at the call. *)

From Stdlib Require Import ZArith List Bool Lia.
From stdpp Require Import base gmap list.
Import ListNotations.
Local Open Scope Z_scope.

(** ** Fixed-width conversions *)

Definition u8 (x : Z) : Z := x mod 256.
Definition u16 (x : Z) : Z := x mod 65536.

(** ** The I2C master interface

    [i2cmaster.h] (Peter Fleury's library) is required by the driver but is
    not part of it, so its primitives are a parameter of the embedding.  The
    driver always calls [i2c_start_wait (sel + I2C_WRITE)] or
    [i2c_start_wait (sel + I2C_READ)]; the two direction constants belong to
    the absent header, so the call is kept as the pair of the select value
    and the direction.  The status byte [i2c_write] returns is ignored by
    every caller and is not modelled. *)

Inductive i2c_dir : Type := I2C_WRITE | I2C_READ.

Record i2cmaster (B : Type) : Type := {
  i2c_init : B -> B;
  i2c_start_wait : Z -> i2c_dir -> B -> B;
  i2c_write : Z -> B -> B;
  i2c_readAck : B -> Z * B;
  i2c_readNak : B -> Z * B;
  i2c_stop : B -> B
}.

Arguments i2c_init {B} _ _.
Arguments i2c_start_wait {B} _ _ _ _.
Arguments i2c_write {B} _ _ _.
Arguments i2c_readAck {B} _ _.
Arguments i2c_readNak {B} _ _.
Arguments i2c_stop {B} _ _.

(** ** The device descriptor: [struct eeprom] *)

Record eeprom : Type := {
  eeprom_address : Z;   (* uint8_t: device address *)
  eeprom_size : Z       (* uint16_t: size in Kbits *)
}.

(** ** The driver *)

Section Driver.

Context {B : Type} (bus : i2cmaster B).

(** [eeprom_init]: initialise the bus, then fill the two fields. *)
Definition eeprom_init (dev_address size : Z) (b : B) : eeprom * B :=
  let b1 := i2c_init bus b in
  ({| eeprom_address := dev_address; eeprom_size := size |}, b1).

(** Address bytes of one transaction, each converted to [unsigned char]
    by the call of [i2c_write]. *)
Definition send_bytes (xs : list Z) (b : B) : B :=
  fold_left (fun s x => i2c_write bus (u8 x) s) xs b.

(** The inner [for] loop of [eeprom_write]:
    [for (i = pos_in_page; (i < page) && (bytes_written < datasize); ++i)].
    [iw] is the modulus of the counter's type ([uint8_t], and [uint16_t]
    in the 1 Mbit branch).  Returns the updated [bytes_written]. *)
Fixpoint page_loop (fuel : nat) (page iw : Z) (data : list Z) (datasize : Z)
    (i bytes_written : Z) (b : B) : Z * B :=
  match fuel with
  | O => (bytes_written, b)
  | S fuel' =>
      if (i <? page) && (bytes_written <? datasize) then
        page_loop fuel' page iw data datasize
          ((i + 1) mod iw) (u16 (bytes_written + 1))
          (i2c_write bus (nth (Z.to_nat bytes_written) data 0) b)
      else (bytes_written, b)
  end.

(** The [while (bytes_written < datasize)] loop shared by the branches of
    [eeprom_write].  A branch fixes the page size, the counter type, the
    select value and the address bytes (which depend on [pos_in_page]).
    [mem_address] is not changed by the loop; [pages_written] is
    incremented and never read, as in the source. *)
Fixpoint write_pages (fuel : nat) (page iw : Z) (sel : Z) (header : Z -> list Z)
    (data : list Z) (datasize : Z)
    (pos_in_page bytes_written pages_written : Z) (b : B) : Z * B :=
  match fuel with
  | O => (bytes_written, b)
  | S fuel' =>
      if bytes_written <? datasize then
        let b1 := i2c_start_wait bus sel I2C_WRITE b in
        let b2 := send_bytes (header pos_in_page) b1 in
        let r := page_loop (Z.to_nat page) page iw data datasize
                   (pos_in_page mod iw) bytes_written b2 in
        write_pages fuel' page iw sel header data datasize
          0 (fst r) (u16 (pages_written + 1)) (snd r)
      else (bytes_written, b)
  end.

(** [eeprom_write]: the chain of capacity tests, one loop per branch, and
    the single [i2c_stop] after the chain. *)
Definition eeprom_write (a : eeprom) (mem_address : Z) (data : list Z)
    (datasize : Z) (b : B) : B :=
  let size := eeprom_size a in
  let addr := eeprom_address a in
  let run page iw sel header :=
    snd (write_pages (Z.to_nat datasize) page iw sel header data datasize
           (mem_address mod page) 0 0 b) in
  let b' :=
    if (size =? 1) || (size =? 2) then
      run 8 256 addr (fun pos => [u8 mem_address + 8 * pos])
    else if size =? 4 then
      run 16 256 (u8 (Z.lor addr (Z.land (Z.shiftr mem_address 8) 1)))
        (fun pos => [u8 mem_address + 16 * pos])
    else if size =? 8 then
      run 16 256 (u8 (Z.lor addr (Z.land (Z.shiftr mem_address 8) 3)))
        (fun pos => [u8 mem_address + 16 * pos])
    else if size =? 16 then
      run 16 256 (u8 (Z.lor addr (Z.land (Z.shiftr mem_address 8) 7)))
        (fun pos => [u8 mem_address + 16 * pos])
    else if (size =? 32) || (size =? 64) then
      run 32 256 addr
        (fun pos => [Z.shiftr (Z.land mem_address 0xFF00) 8;
                     Z.land mem_address 0x00FF + 32 * pos])
    else if (size =? 128) || (size =? 256) then
      run 64 256 addr
        (fun pos => [Z.shiftr (Z.land mem_address 0xFF00) 8;
                     Z.land mem_address 0x00FF + 64 * pos])
    else if size =? 512 then
      run 128 256 addr
        (fun pos => [Z.shiftr (Z.land mem_address 0xFF00) 8;
                     Z.land mem_address 0x00FF + 128 * pos])
    else if size =? 1024 then
      run 256 65536 addr
        (fun pos => [Z.shiftr (Z.land mem_address 0xFF00) 8;
                     Z.land mem_address 0x00FF + 256 * pos])
    else b in
  i2c_stop bus b'.

(** The [while (bytes_read < datasize - 1)] loop of [eeprom_read].  [last]
    is the value of [datasize - 1]; the buffer [data] maps an index [i] to
    the byte stored at [*(data + i)]. *)
Fixpoint read_loop (fuel : nat) (last : Z) (data : gmap Z Z)
    (bytes_read : Z) (b : B) : gmap Z Z * Z * B :=
  match fuel with
  | O => (data, bytes_read, b)
  | S fuel' =>
      if bytes_read <? last then
        let r := i2c_readAck bus b in
        read_loop fuel' last (<[bytes_read := fst r]> data)
          (u16 (bytes_read + 1)) (snd r)
      else (data, bytes_read, b)
  end.

(** The loop and the final [i2c_readNak] store.  [datasize - 1] is a
    16-bit unsigned subtraction on the target, so it wraps to 65535 when
    [datasize] is 0. *)
Definition read_bytes (data : gmap Z Z) (datasize : Z) (b : B) : gmap Z Z * B :=
  let last := u16 (datasize - 1) in
  let st := read_loop (Z.to_nat last) last data 0 b in
  let r := i2c_readNak bus (snd st) in
  (<[snd (fst st) := fst r]> (fst (fst st)), snd r).

(** [eeprom_read]: set the address pointer with a write-mode transaction,
    stop, reopen in read mode, read, and the final [i2c_stop]. *)
Definition eeprom_read (a : eeprom) (mem_address : Z) (data : gmap Z Z)
    (datasize : Z) (b : B) : gmap Z Z * B :=
  let size := eeprom_size a in
  let addr := eeprom_address a in
  let run sel header :=
    let b1 := i2c_start_wait bus sel I2C_WRITE b in
    let b2 := send_bytes header b1 in
    let b3 := i2c_stop bus b2 in
    let b4 := i2c_start_wait bus sel I2C_READ b3 in
    read_bytes data datasize b4 in
  let r :=
    if (size =? 1) || (size =? 2) then
      run addr [u8 mem_address]
    else if size =? 4 then
      run (u8 (Z.lor addr (Z.land (Z.shiftr mem_address 8) 1))) [u8 mem_address]
    else if size =? 8 then
      run (u8 (Z.lor addr (Z.land (Z.shiftr mem_address 8) 3))) [u8 mem_address + 0]
    else if size =? 16 then
      run (u8 (Z.lor addr (Z.land (Z.shiftr mem_address 8) 7))) [u8 mem_address]
    else if (size =? 32) || (size =? 64) || (size =? 128) || (size =? 256)
            || (size =? 512) || (size =? 1024) then
      run addr [u8 (Z.shiftr (Z.land mem_address 0xFF00) 8);
                u8 (Z.land mem_address 0x00FF)]
    else (data, b) in
  (fst r, i2c_stop bus (snd r)).

End Driver.

(** ** Observing the bus: the logging master

    [logged bus] runs every primitive on [bus] and appends the call to a
    trace, so that statements about the sequence of bus primitives hold for
    every implementation of the I2C master. *)

Inductive event : Type :=
  | E_init
  | E_start_wait (sel : Z) (dir : i2c_dir)
  | E_write (x : Z)
  | E_readAck
  | E_readNak
  | E_stop.

Definition logged {B : Type} (bus : i2cmaster B) : i2cmaster (list event * B) := {|
  i2c_init w := (fst w ++ [E_init], i2c_init bus (snd w));
  i2c_start_wait sel dir w :=
    (fst w ++ [E_start_wait sel dir], i2c_start_wait bus sel dir (snd w));
  i2c_write x w := (fst w ++ [E_write x], i2c_write bus x (snd w));
  i2c_readAck w :=
    (fst (i2c_readAck bus (snd w)),
     (fst w ++ [E_readAck], snd (i2c_readAck bus (snd w))));
  i2c_readNak w :=
    (fst (i2c_readNak bus (snd w)),
     (fst w ++ [E_readNak], snd (i2c_readNak bus (snd w))));
  i2c_stop w := (fst w ++ [E_stop], i2c_stop bus (snd w))
|}.

(** The bus primitives an [eeprom_write] call issues, from an empty trace. *)
Definition write_trace {B : Type} (bus : i2cmaster B) (a : eeprom)
    (mem_address : Z) (data : list Z) (datasize : Z) (b : B) : list event :=
  fst (eeprom_write (logged bus) a mem_address data datasize ([], b)).

(** The bus primitives an [eeprom_read] call issues, from an empty trace. *)
Definition read_trace {B : Type} (bus : i2cmaster B) (a : eeprom)
    (mem_address : Z) (data : gmap Z Z) (datasize : Z) (b : B) : list event :=
  fst (snd (eeprom_read (logged bus) a mem_address data datasize ([], b))).

Definition is_start (e : event) : bool :=
  match e with E_start_wait _ _ => true | _ => false end.

Definition is_write_start (e : event) : bool :=
  match e with E_start_wait _ I2C_WRITE => true | _ => false end.

Definition is_byte_out (e : event) : bool :=
  match e with E_write _ => true | _ => false end.

Definition is_byte_in (e : event) : bool :=
  match e with E_readAck | E_readNak => true | _ => false end.

(** A trace is bracketed when no transaction is opened while another is
    still open, and none is left open at the end.  [open] tells whether a
    transaction is open before the first event. *)
Fixpoint bracketed (open : bool) (t : list event) : bool :=
  match t with
  | [] => negb open
  | E_start_wait _ _ :: t' => negb open && bracketed true t'
  | E_stop :: t' => bracketed false t'
  | _ :: t' => bracketed open t'
  end.

(** ** The capacity table of the specification *)

Definition capacity_classes : list Z := [1; 2; 4; 8; 16; 32; 64; 128; 256; 512; 1024].

Definition supported (size : Z) : bool := existsb (Z.eqb size) capacity_classes.

(** [page_size] of the specification's data model. *)
Definition spec_page_size (c : Z) : Z :=
  if (c =? 1) || (c =? 2) then 8
  else if (c =? 4) || (c =? 8) || (c =? 16) then 16
  else if (c =? 32) || (c =? 64) then 32
  else if (c =? 128) || (c =? 256) then 64
  else if c =? 512 then 128
  else 256.

(** [address_bits_in_select_byte] of the specification's data model. *)
Definition spec_address_bits_in_select_byte (c : Z) : Z :=
  if c =? 4 then 1 else if c =? 8 then 2 else if c =? 16 then 3 else 0.

(** [uses_two_byte_address] of the specification's data model. *)
Definition spec_uses_two_byte_address (c : Z) : bool := 32 <=? c.

(** The bus-select value of the specification: the high bits of the offset
    (shifted by 8, masked to the scheme's bit count) are ORed into the bus
    address when the scheme folds bits; otherwise the address is unchanged. *)
Definition spec_select (addr bits mem_address : Z) : Z :=
  if bits =? 0 then addr
  else u8 (Z.lor addr (Z.land (Z.shiftr mem_address 8) (2 ^ bits - 1))).

(** The address bytes that open a transaction: one byte, or the high and the
    low byte of the 16-bit offset; [extra] is what the caller adds to the low
    byte. *)
Definition spec_address_bytes (two_byte : bool) (mem_address extra : Z) : list Z :=
  if two_byte
  then [Z.shiftr (Z.land mem_address 0xFF00) 8; Z.land mem_address 0x00FF + extra]
  else [u8 mem_address + extra].

(** The common shape of the branches of [eeprom_write]: the driver's own
    loop, with the page size, the bit count and the address width of a
    branch as parameters.  It is a proof device for treating the branches
    uniformly, not a second implementation: what the loop does is stated on
    the trace, by [write_chunks]. *)
Definition scheme_write {B : Type} (bus : i2cmaster B)
    (page bits : Z) (two_byte : bool)
    (a : eeprom) (mem_address : Z) (data : list Z) (datasize : Z) (b : B) : B :=
  i2c_stop bus
    (snd (write_pages bus (Z.to_nat datasize) page
            (if page <? 256 then 256 else 65536)
            (spec_select (eeprom_address a) bits mem_address)
            (fun pos => spec_address_bytes two_byte mem_address (page * pos))
            data datasize (mem_address mod page) 0 0 b)).

(** The common shape of the branches of [eeprom_read], likewise built from
    the driver's own [send_bytes] and [read_bytes]. *)
Definition scheme_read {B : Type} (bus : i2cmaster B)
    (bits : Z) (two_byte : bool)
    (a : eeprom) (mem_address : Z) (data : gmap Z Z) (datasize : Z) (b : B)
    : gmap Z Z * B :=
  let sel := spec_select (eeprom_address a) bits mem_address in
  let b1 := i2c_start_wait bus sel I2C_WRITE b in
  let b2 := send_bytes bus (spec_address_bytes two_byte mem_address 0) b1 in
  let b3 := i2c_stop bus b2 in
  let b4 := i2c_start_wait bus sel I2C_READ b3 in
  let r := read_bytes bus data datasize b4 in
  (fst r, i2c_stop bus (snd r)).

(** The construction of the specification: an unsupported capacity is
    rejected when the device is constructed. *)
Inductive construct_error : Type := UnsupportedCapacity.

Definition spec_construct (bus_select_address capacity_class : Z)
    : construct_error + eeprom :=
  if supported capacity_class
  then inr {| eeprom_address := bus_select_address; eeprom_size := capacity_class |}
  else inl UnsupportedCapacity.

(** ** An ideal transport

    Modelled from the spec: the I2C transport and the memory device behind it
    are outside the repository; this is the ideal transport of the
    specification's round-trip property, a bus that stores each payload byte
    at the address the transaction specifies and returns the stored bytes on
    read.  A write-mode transaction first receives its address bytes (one or
    two, the high bits of a one-byte scheme being taken from the select
    value), which set the address pointer; every later byte is stored at the
    pointer, which then advances by one.  A read returns the byte at the
    pointer (0xFF for a cell never written) and advances it.  The pointer is
    linear: it does not wrap at a page boundary. *)

Inductive phase : Type :=
  | Idle
  | Addressing (need : nat) (acc : Z)
  | Storing
  | Sending.

Record ideal : Type := {
  cells : gmap Z Z;
  pointer : Z;
  mode : phase
}.

Definition ideal_bus (address_bytes : nat) (select_mask : Z) : i2cmaster ideal := {|
  i2c_init s := s;
  i2c_start_wait sel dir s :=
    match dir with
    | I2C_WRITE =>
        {| cells := cells s; pointer := pointer s;
           mode := Addressing address_bytes (Z.land sel select_mask) |}
    | I2C_READ => {| cells := cells s; pointer := pointer s; mode := Sending |}
    end;
  i2c_write x s :=
    match mode s with
    | Addressing (S O) acc =>
        {| cells := cells s; pointer := acc * 256 + x; mode := Storing |}
    | Addressing (S n) acc =>
        {| cells := cells s; pointer := pointer s; mode := Addressing n (acc * 256 + x) |}
    | Storing =>
        {| cells := <[pointer s := x]> (cells s); pointer := pointer s + 1;
           mode := Storing |}
    | _ => s
    end;
  i2c_readAck s :=
    match mode s with
    | Sending =>
        (default 255 (cells s !! pointer s),
         {| cells := cells s; pointer := pointer s + 1; mode := Sending |})
    | _ => (255, s)
    end;
  i2c_readNak s :=
    match mode s with
    | Sending =>
        (default 255 (cells s !! pointer s),
         {| cells := cells s; pointer := pointer s + 1; mode := Sending |})
    | _ => (255, s)
    end;
  i2c_stop s := {| cells := cells s; pointer := pointer s; mode := Idle |}
|}.

(** The ideal device of a capacity class: its address width and the select
    bits it decodes follow the capacity table. *)
Definition ideal_device (c : Z) : i2cmaster ideal :=
  ideal_bus (if spec_uses_two_byte_address c then 2%nat else 1%nat)
            (2 ^ spec_address_bits_in_select_byte c - 1).

Definition erased : ideal := {| cells := ∅; pointer := 0; mode := Idle |}.

(** The bytes a caller finds in its buffer at indices [0 .. n-1]. *)
Definition buffer_bytes (data : gmap Z Z) (n : nat) : list (option Z) :=
  map (fun k => data !! Z.of_nat k) (seq 0 n).

(** Write [p] at [mem_address], then read [length p] bytes back from
    [mem_address] into an empty buffer, over the ideal device. *)
Definition round_trip (a : eeprom) (mem_address : Z) (p : list Z) : list (option Z) :=
  let dev := ideal_device (eeprom_size a) in
  let n := Z.of_nat (length p) in
  let s1 := eeprom_write dev a mem_address p n erased in
  let r := eeprom_read dev a mem_address ∅ n s1 in
  buffer_bytes (fst r) (length p).

(** The cell of the ideal device that holds logical offset [o], after a
    write. *)
Definition stored_at (a : eeprom) (mem_address : Z) (p : list Z) (o : Z) : option Z :=
  cells (eeprom_write (ideal_device (eeprom_size a)) a mem_address p
           (Z.of_nat (length p)) erased) !! o.

(** A test payload of [n] bytes: byte [k] is [k mod 251], so that bytes one
    page apart differ. *)
Definition ramp (n : nat) : list Z := map (fun k => Z.of_nat k mod 251) (seq 0 n).

(** The payload bytes [data[from]], ..., [data[from + count - 1]]. *)
Definition payload_slice (data : list Z) (from : Z) (count : nat) : list Z :=
  map (fun k => nth k data 0) (seq (Z.to_nat from) count).

(** Payload bytes, passed to [i2c_write] as they are. *)
Definition send_payload {B : Type} (bus : i2cmaster B) (xs : list Z) (b : B) : B :=
  fold_left (fun s x => i2c_write bus x s) xs b.

(** ** Reading a trace as transactions *)

(** The transactions of a trace: for each [i2c_start_wait], its select value
    and the bytes sent with [i2c_write] before the next [i2c_start_wait]. *)
Fixpoint transactions_from (cur : option (Z * list Z)) (t : list event)
    : list (Z * list Z) :=
  match t with
  | [] => match cur with Some c => [c] | None => [] end
  | E_start_wait sel _ :: t' =>
      match cur with Some c => [c] | None => [] end
      ++ transactions_from (Some (sel, [])) t'
  | E_write x :: t' =>
      transactions_from
        (match cur with Some (sel, xs) => Some (sel, xs ++ [x]) | None => None end) t'
  | _ :: t' => transactions_from cur t'
  end.

Definition transactions (t : list event) : list (Z * list Z) :=
  transactions_from None t.

(** What a write transaction addresses on a device of capacity class [c]:
    the logical offset of its first payload byte and the number of payload
    bytes, decoded as the ideal device decodes them. *)
Definition addressed_range (c : Z) (txn : Z * list Z) : option (Z * Z) :=
  let high := Z.land (fst txn) (2 ^ spec_address_bits_in_select_byte c - 1) in
  match spec_uses_two_byte_address c, snd txn with
  | false, lo :: payload => Some (high * 256 + lo, Z.of_nat (length payload))
  | true, hi :: lo :: payload =>
      Some ((high * 256 + hi) * 256 + lo, Z.of_nat (length payload))
  | _, _ => None
  end.

(** A range of [n] bytes from offset [first] lies within one page. *)
Definition within_one_page (page : Z) (r : Z * Z) : bool :=
  fst r / page =? (fst r + snd r - 1) / page.

(** A bus that does nothing and reads zeros, for running the driver when only
    the driver's own results matter. *)
Definition null_bus : i2cmaster unit := {|
  i2c_init s := s;
  i2c_start_wait _ _ s := s;
  i2c_write _ s := s;
  i2c_readAck s := (0, s);
  i2c_readNak s := (0, s);
  i2c_stop s := s
|}.

(** The device of the header's usage example, [EEPROM_ADDRESS 0xA0], in a
    given capacity class. *)
Definition device (c : Z) : eeprom := {| eeprom_address := 0xA0; eeprom_size := c |}.

(** ** The chunks of a write *)

(** The events of one write transaction: the start and the bytes sent. *)
Definition txn_events (t : Z * list Z) : list event :=
  E_start_wait (fst t) I2C_WRITE :: map E_write (snd t).

(** The transactions the [while] loop of [eeprom_write] issues from the state
    ([pos_in_page], [bytes_written]): each carries its address bytes and the
    payload bytes up to the end of the page or of the data. *)
Fixpoint write_chunks (fuel : nat) (page sel : Z) (header : Z -> list Z)
    (data : list Z) (datasize pos_in_page bytes_written : Z) : list (Z * list Z) :=
  match fuel with
  | O => []
  | S fuel' =>
      if bytes_written <? datasize then
        let m := Z.min (page - pos_in_page) (datasize - bytes_written) in
        (sel, map u8 (header pos_in_page)
              ++ payload_slice data bytes_written (Z.to_nat m))
        :: write_chunks fuel' page sel header data datasize 0 (bytes_written + m)
      else []
  end.

(** The number of address bytes of a capacity class. *)
Definition address_width (c : Z) : nat :=
  if spec_uses_two_byte_address c then 2%nat else 1%nat.

(** The offsets the addressing scheme of a capacity class can express: 16
    bits with two address bytes, 8 bits plus the folded bits otherwise. *)
Definition addressable (c : Z) : Z :=
  if spec_uses_two_byte_address c then 65536
  else 256 * 2 ^ spec_address_bits_in_select_byte c.

Definition is_stop (e : event) : bool :=
  match e with E_stop => true | _ => false end.

(** * Properties *)

(** ** Arithmetic of the fixed-width conversions *)

Lemma u8_small (x : Z) : 0 <= x < 256 -> u8 x = x.
Proof. intros H. unfold u8. apply Z.mod_small. exact H. Qed.

Lemma u16_small (x : Z) : 0 <= x < 65536 -> u16 x = x.
Proof. intros H. unfold u16. apply Z.mod_small. exact H. Qed.

Lemma u8_idem (x : Z) : u8 (u8 x) = u8 x.
Proof. unfold u8. apply Z.mod_mod. lia. Qed.

(** ** The loops of [eeprom_write] *)

Lemma payload_slice_cons (data : list Z) (from : Z) (count : nat) :
  0 <= from ->
  payload_slice data from (S count) =
  nth (Z.to_nat from) data 0 :: payload_slice data (from + 1) count.
Proof.
  intros Hfrom. unfold payload_slice. simpl.
  replace (Z.to_nat (from + 1)) with (S (Z.to_nat from)) by lia.
  reflexivity.
Qed.

Lemma payload_slice_whole (data : list Z) (k : nat) :
  (k <= length data)%nat ->
  payload_slice data (Z.of_nat k) (length data - k) = skipn k data.
Proof.
  revert k. induction data as [|x data IH]; intros k Hk.
  - simpl in Hk. assert (k = O) by lia. subst k. reflexivity.
  - destruct k as [|k].
    + unfold payload_slice. simpl.
      f_equal. specialize (IH O ltac:(lia)). unfold payload_slice in IH.
      simpl in IH. rewrite Nat.sub_0_r in IH.
      rewrite <- seq_shift, map_map. exact IH.
    + simpl in Hk. specialize (IH k ltac:(lia)).
      unfold payload_slice in *. rewrite Nat2Z.id in *.
      simpl length. replace (S (length data) - S k)%nat with (length data - k)%nat by lia.
      simpl skipn. rewrite <- IH. rewrite <- seq_shift, map_map. reflexivity.
Qed.

Lemma payload_slice_prefix (data : list Z) (k : nat) :
  (k <= length data)%nat ->
  payload_slice data 0 k = firstn k data.
Proof.
  revert k. induction data as [|x data IH]; intros k Hk.
  - simpl in Hk. assert (k = O) by lia. subst k. reflexivity.
  - destruct k as [|k]; [reflexivity|].
    simpl in Hk. specialize (IH k ltac:(lia)).
    unfold payload_slice in *. simpl. f_equal.
    rewrite <- seq_shift, map_map. exact IH.
Qed.

Section Loops.

Context {B : Type} (bus : i2cmaster B).

(** The [for] loop sends the bytes from [bytes_written] on, until the page
    is full or the data is exhausted, whichever comes first; the supplied
    fuel is never what stops it. *)
Lemma page_loop_spec (page iw : Z) (data : list Z) (datasize : Z) :
  forall (fuel : nat) (i bytes_written : Z) (b : B),
    0 <= i <= page -> page < iw ->
    0 <= bytes_written <= datasize -> datasize < 65536 ->
    (Z.to_nat (page - i) <= fuel)%nat ->
    page_loop bus fuel page iw data datasize i bytes_written b =
    (bytes_written + Z.min (page - i) (datasize - bytes_written),
     send_payload bus
       (payload_slice data bytes_written
          (Z.to_nat (Z.min (page - i) (datasize - bytes_written)))) b).
Proof.
  induction fuel as [|fuel IH]; intros i bw b Hi Hiw Hbw Hn Hfuel.
  - assert (page - i = 0) by lia.
    replace (Z.min (page - i) (datasize - bw)) with 0 by lia.
    simpl. rewrite Z.add_0_r. reflexivity.
  - simpl page_loop.
    destruct (i <? page) eqn:Ei; destruct (bw <? datasize) eqn:Eb; simpl andb;
      try apply Z.ltb_lt in Ei; try apply Z.ltb_ge in Ei;
      try apply Z.ltb_lt in Eb; try apply Z.ltb_ge in Eb.
    + rewrite (Z.mod_small (i + 1) iw) by lia.
      rewrite (u16_small (bw + 1)) by lia.
      rewrite IH by lia.
      replace (Z.to_nat (Z.min (page - i) (datasize - bw)))
        with (S (Z.to_nat (Z.min (page - (i + 1)) (datasize - (bw + 1))))) by lia.
      rewrite payload_slice_cons by lia. simpl.
      f_equal. lia.
    + replace (Z.min (page - i) (datasize - bw)) with 0 by lia.
      simpl. rewrite Z.add_0_r. reflexivity.
    + replace (Z.min (page - i) (datasize - bw)) with 0 by lia.
      simpl. rewrite Z.add_0_r. reflexivity.
    + replace (Z.min (page - i) (datasize - bw)) with 0 by lia.
      simpl. rewrite Z.add_0_r. reflexivity.
Qed.

(** The [while] loop of [eeprom_write] ends because all the bytes are
    written, not because the fuel is spent. *)
Lemma write_pages_all_written (page iw sel : Z) (header : Z -> list Z)
    (data : list Z) (datasize : Z) :
  forall (fuel : nat) (pos bytes_written pages_written : Z) (b : B),
    0 <= pos < page -> page < iw ->
    0 <= bytes_written <= datasize -> datasize < 65536 ->
    (Z.to_nat (datasize - bytes_written) <= fuel)%nat ->
    fst (write_pages bus fuel page iw sel header data datasize
           pos bytes_written pages_written b) = datasize.
Proof.
  induction fuel as [|fuel IH]; intros pos bw pw b Hpos Hiw Hbw Hn Hfuel.
  - simpl. lia.
  - simpl write_pages.
    destruct (bw <? datasize) eqn:Eb;
      [apply Z.ltb_lt in Eb | apply Z.ltb_ge in Eb; simpl; lia].
    rewrite (Z.mod_small pos iw) by lia.
    rewrite page_loop_spec by lia.
    simpl fst. simpl snd.
    apply IH; lia.
Qed.

End Loops.

(** ** The loops of [eeprom_read] *)

Section ReadLoops.

Context {B : Type} (bus : i2cmaster B).

(** The [while] loop of [eeprom_read] ends with [bytes_read = last]. *)
Lemma read_loop_count (last : Z) :
  forall (fuel : nat) (data : gmap Z Z) (bytes_read : Z) (b : B),
    0 <= bytes_read <= last -> last < 65536 ->
    (Z.to_nat (last - bytes_read) <= fuel)%nat ->
    snd (fst (read_loop bus fuel last data bytes_read b)) = last.
Proof.
  induction fuel as [|fuel IH]; intros data br b Hbr Hlast Hfuel.
  - simpl. lia.
  - simpl read_loop.
    destruct (br <? last) eqn:E;
      [apply Z.ltb_lt in E | apply Z.ltb_ge in E; simpl; lia].
    rewrite (u16_small (br + 1)) by lia.
    apply IH; lia.
Qed.

(** The loop stores one byte at each index from [bytes_read] up to
    [last - 1] and leaves every other index as it was. *)
Lemma read_loop_buffer (last : Z) :
  forall (fuel : nat) (data : gmap Z Z) (bytes_read : Z) (b : B),
    0 <= bytes_read <= last -> last < 65536 ->
    (Z.to_nat (last - bytes_read) <= fuel)%nat ->
    forall j : Z,
      (bytes_read <= j < last ->
       is_Some (fst (fst (read_loop bus fuel last data bytes_read b)) !! j)) /\
      (~ bytes_read <= j < last ->
       fst (fst (read_loop bus fuel last data bytes_read b)) !! j = data !! j).
Proof.
  induction fuel as [|fuel IH]; intros data br b Hbr Hlast Hfuel j.
  - simpl. split; [lia | reflexivity].
  - simpl read_loop.
    destruct (br <? last) eqn:E;
      [apply Z.ltb_lt in E | apply Z.ltb_ge in E; simpl; split; [lia | reflexivity]].
    rewrite (u16_small (br + 1)) by lia.
    destruct (IH (<[br := fst (i2c_readAck bus b)]> data) (br + 1)
                (snd (i2c_readAck bus b)) ltac:(lia) Hlast ltac:(lia) j)
      as [Hin Hout].
    split; intros Hj.
    + destruct (Z.eq_dec j br) as [->|Hne].
      * rewrite Hout by lia. rewrite lookup_insert_eq. eexists; reflexivity.
      * apply Hin. lia.
    + rewrite Hout by lia. apply lookup_insert_ne. lia.
Qed.

(** [read_bytes] stores at the indices [0 .. datasize - 1], computed in
    16-bit arithmetic, and nowhere else. *)
Lemma read_bytes_buffer (data : gmap Z Z) (datasize : Z) (b : B) (j : Z) :
  (0 <= j <= u16 (datasize - 1) ->
   is_Some (fst (read_bytes bus data datasize b) !! j)) /\
  (~ 0 <= j <= u16 (datasize - 1) ->
   fst (read_bytes bus data datasize b) !! j = data !! j).
Proof.
  unfold read_bytes. simpl fst.
  assert (Hrange : 0 <= u16 (datasize - 1) < 65536)
    by (unfold u16; apply Z.mod_pos_bound; lia).
  set (last := u16 (datasize - 1)) in *.
  rewrite read_loop_count by lia.
  destruct (read_loop_buffer last (Z.to_nat last) data 0 b
              ltac:(lia) ltac:(lia) ltac:(lia) j) as [Hin Hout].
  split; intros Hj.
  - destruct (Z.eq_dec j last) as [->|Hne].
    + rewrite lookup_insert_eq. eexists; reflexivity.
    + rewrite lookup_insert_ne by lia. apply Hin. lia.
  - rewrite lookup_insert_ne by lia. apply Hout. lia.
Qed.

End ReadLoops.

(** ** Traces of the loops *)

Section LoggedRuns.

Context {B : Type} (bus : i2cmaster B).

Lemma logged_send_payload (xs : list Z) :
  forall w : list event * B,
    send_payload (logged bus) xs w =
    (fst w ++ map E_write xs, send_payload bus xs (snd w)).
Proof.
  induction xs as [|x xs IH]; intros [l b].
  - simpl. rewrite app_nil_r. reflexivity.
  - unfold send_payload in *. simpl fold_left. rewrite IH. simpl.
    rewrite <- app_assoc. reflexivity.
Qed.

Lemma logged_send_bytes (xs : list Z) :
  forall w : list event * B,
    send_bytes (logged bus) xs w =
    (fst w ++ map (fun x => E_write (u8 x)) xs, send_bytes bus xs (snd w)).
Proof.
  induction xs as [|x xs IH]; intros [l b].
  - simpl. rewrite app_nil_r. reflexivity.
  - unfold send_bytes in *. simpl fold_left. rewrite IH. simpl.
    rewrite <- app_assoc. reflexivity.
Qed.

(** The loop issues one acknowledged read per iteration. *)
Lemma logged_read_loop (last : Z) :
  forall (fuel : nat) (data : gmap Z Z) (bytes_read : Z) (w : list event * B),
    0 <= bytes_read <= last -> last < 65536 ->
    (Z.to_nat (last - bytes_read) <= fuel)%nat ->
    fst (snd (read_loop (logged bus) fuel last data bytes_read w)) =
    fst w ++ repeat E_readAck (Z.to_nat (last - bytes_read)).
Proof.
  induction fuel as [|fuel IH]; intros data br w Hbr Hlast Hfuel.
  - replace (Z.to_nat (last - br)) with O by lia. simpl.
    rewrite app_nil_r. reflexivity.
  - simpl read_loop.
    destruct (br <? last) eqn:E;
      [apply Z.ltb_lt in E | apply Z.ltb_ge in E].
    + rewrite (u16_small (br + 1)) by lia.
      rewrite IH by lia. simpl fst.
      replace (Z.to_nat (last - br)) with (S (Z.to_nat (last - (br + 1)))) by lia.
      simpl repeat. rewrite <- app_assoc. reflexivity.
    + replace (Z.to_nat (last - br)) with O by lia. simpl.
      rewrite app_nil_r. reflexivity.
Qed.

(** [read_bytes] issues [datasize - 1] acknowledged reads (in 16-bit
    arithmetic) and then one read without acknowledge. *)
Lemma logged_read_bytes (data : gmap Z Z) (datasize : Z) (w : list event * B) :
  fst (snd (read_bytes (logged bus) data datasize w)) =
  fst w ++ repeat E_readAck (Z.to_nat (u16 (datasize - 1))) ++ [E_readNak].
Proof.
  unfold read_bytes. simpl.
  assert (Hrange : 0 <= u16 (datasize - 1) < 65536)
    by (unfold u16; apply Z.mod_pos_bound; lia).
  rewrite logged_read_loop by lia.
  rewrite Z.sub_0_r, <- app_assoc. reflexivity.
Qed.

End LoggedRuns.

(** ** The capacity dispatch *)

Lemma supported_cases (c : Z) :
  supported c = true ->
  c = 1 \/ c = 2 \/ c = 4 \/ c = 8 \/ c = 16 \/ c = 32 \/ c = 64 \/
  c = 128 \/ c = 256 \/ c = 512 \/ c = 1024.
Proof.
  unfold supported, capacity_classes. simpl existsb.
  rewrite !orb_true_iff, !Z.eqb_eq. intros H.
  repeat (destruct H as [H|H]; [subst c; tauto|]). discriminate H.
Qed.

Lemma unsupported_tests (c : Z) :
  supported c = false ->
  (c =? 1) = false /\ (c =? 2) = false /\ (c =? 4) = false /\
  (c =? 8) = false /\ (c =? 16) = false /\ (c =? 32) = false /\
  (c =? 64) = false /\ (c =? 128) = false /\ (c =? 256) = false /\
  (c =? 512) = false /\ (c =? 1024) = false.
Proof.
  unfold supported, capacity_classes. simpl existsb.
  rewrite !orb_false_iff. tauto.
Qed.

Section Dispatch.

Context {B : Type} (bus : i2cmaster B).

(** On a supported class, the branch [eeprom_write] takes is the common shape
    run with the table's page size, bit count and address width. *)
Lemma eeprom_write_scheme (a : eeprom) (mem_address : Z) (data : list Z)
    (datasize : Z) (b : B) :
  supported (eeprom_size a) = true ->
  eeprom_write bus a mem_address data datasize b =
  scheme_write bus (spec_page_size (eeprom_size a))
    (spec_address_bits_in_select_byte (eeprom_size a))
    (spec_uses_two_byte_address (eeprom_size a)) a mem_address data datasize b.
Proof.
  intros H. destruct a as [addr size]. simpl in H.
  destruct (supported_cases size H)
    as [->|[->|[->|[->|[->|[->|[->|[->|[->|[->| ->]]]]]]]]]];
    reflexivity.
Qed.

Lemma eeprom_read_scheme (a : eeprom) (mem_address : Z) (data : gmap Z Z)
    (datasize : Z) (b : B) :
  supported (eeprom_size a) = true ->
  eeprom_read bus a mem_address data datasize b =
  scheme_read bus (spec_address_bits_in_select_byte (eeprom_size a))
    (spec_uses_two_byte_address (eeprom_size a)) a mem_address data datasize b.
Proof.
  intros H. destruct a as [addr size]. simpl in H.
  destruct (supported_cases size H)
    as [->|[->|[->|[->|[->|[->|[->|[->|[->|[->| ->]]]]]]]]]];
    unfold eeprom_read, scheme_read, send_bytes;
    cbn [eeprom_size eeprom_address Z.eqb Pos.eqb orb
         spec_address_bits_in_select_byte spec_uses_two_byte_address
         spec_select spec_address_bytes Z.leb Z.compare Pos.compare
         Pos.compare_cont fold_left];
    rewrite ?Z.add_0_r, ?u8_idem; reflexivity.
Qed.

(** On an unsupported capacity no branch is taken: the only primitive called
    is the [i2c_stop] that ends the function. *)
Lemma eeprom_write_unsupported (a : eeprom) (mem_address : Z) (data : list Z)
    (datasize : Z) (b : B) :
  supported (eeprom_size a) = false ->
  eeprom_write bus a mem_address data datasize b = i2c_stop bus b.
Proof.
  intros H. apply unsupported_tests in H.
  destruct H as (H1 & H2 & H4 & H8 & H16 & H32 & H64 & H128 & H256 & H512 & H1024).
  unfold eeprom_write.
  rewrite H1, H2, H4, H8, H16, H32, H64, H128, H256, H512, H1024.
  reflexivity.
Qed.

Lemma eeprom_read_unsupported (a : eeprom) (mem_address : Z) (data : gmap Z Z)
    (datasize : Z) (b : B) :
  supported (eeprom_size a) = false ->
  eeprom_read bus a mem_address data datasize b = (data, i2c_stop bus b).
Proof.
  intros H. apply unsupported_tests in H.
  destruct H as (H1 & H2 & H4 & H8 & H16 & H32 & H64 & H128 & H256 & H512 & H1024).
  unfold eeprom_read.
  rewrite H1, H2, H4, H8, H16, H32, H64, H128, H256, H512, H1024.
  reflexivity.
Qed.

End Dispatch.

(** ** The trace and the buffer of a read *)

Section ReadRuns.

Context {B : Type} (bus : i2cmaster B).

(** The whole trace of a read on a supported class: the pointer-setting
    transaction, its stop, the read-mode start, the acknowledged reads, the
    read without acknowledge and the closing stop. *)
Lemma read_trace_supported (a : eeprom) (mem_address : Z) (data : gmap Z Z)
    (datasize : Z) (b : B) :
  supported (eeprom_size a) = true ->
  let c := eeprom_size a in
  let sel := spec_select (eeprom_address a)
               (spec_address_bits_in_select_byte c) mem_address in
  read_trace bus a mem_address data datasize b =
  (E_start_wait sel I2C_WRITE
   :: map (fun x => E_write (u8 x))
        (spec_address_bytes (spec_uses_two_byte_address c) mem_address 0))
  ++ [E_stop; E_start_wait sel I2C_READ]
  ++ repeat E_readAck (Z.to_nat (u16 (datasize - 1)))
  ++ [E_readNak; E_stop].
Proof.
  intros H c sel. unfold read_trace.
  rewrite eeprom_read_scheme by exact H.
  unfold scheme_read. cbn [fst snd logged i2c_stop i2c_start_wait].
  rewrite logged_read_bytes. cbn [fst snd].
  rewrite logged_send_bytes. cbn [fst snd].
  fold c. fold sel.
  rewrite <- !app_assoc. reflexivity.
Qed.

(** The buffer after a read on a supported class. *)
Lemma read_buffer_supported (a : eeprom) (mem_address : Z) (data : gmap Z Z)
    (datasize : Z) (b : B) (j : Z) :
  supported (eeprom_size a) = true ->
  (0 <= j <= u16 (datasize - 1) ->
   is_Some (fst (eeprom_read bus a mem_address data datasize b) !! j)) /\
  (~ 0 <= j <= u16 (datasize - 1) ->
   fst (eeprom_read bus a mem_address data datasize b) !! j = data !! j).
Proof.
  intros H. rewrite eeprom_read_scheme by exact H.
  unfold scheme_read. cbn [fst]. apply read_bytes_buffer.
Qed.

End ReadRuns.

Lemma forallb_not_byte_in_header (xs : list Z) :
  forallb (fun e => negb (is_byte_in e)) (map (fun x => E_write (u8 x)) xs) = true.
Proof. induction xs as [|x xs IH]; [reflexivity | exact IH]. Qed.

Lemma filter_byte_in_acks (n : nat) :
  List.filter is_byte_in (repeat E_readAck n ++ [E_readNak; E_stop]) =
  repeat E_readAck n ++ [E_readNak].
Proof. induction n as [|n IH]; [reflexivity | simpl; rewrite IH; reflexivity]. Qed.

Lemma filter_byte_in_header (xs : list Z) :
  List.filter is_byte_in (map (fun x => E_write (u8 x)) xs) = [].
Proof. induction xs as [|x xs IH]; [reflexivity | exact IH]. Qed.

(** ** Page segmentation of a write *)

Lemma spec_page_size_bounds (c : Z) :
  0 < spec_page_size c < (if spec_page_size c <? 256 then 256 else 65536).
Proof.
  unfold spec_page_size.
  repeat match goal with
         | |- context [if ?t then _ else _] => destruct t; try (simpl; lia)
         end.
Qed.

Section WriteRuns.

Context {B : Type} (bus : i2cmaster B).

(** A write that needs exactly two chunks: the payload is cut after
    [page - pos] bytes, each chunk is preceded by a write-mode start and its
    address bytes, and the address bytes of the second chunk are computed
    from the same [mem_address] with position 0. *)
Lemma write_pages_two_chunks (page iw sel : Z) (header : Z -> list Z)
    (data : list Z) :
  forall (fuel : nat) (pos pages_written : Z) (w : list event * B),
    0 <= pos < page -> page < iw ->
    Z.of_nat (length data) < 65536 ->
    page - pos < Z.of_nat (length data) <= 2 * page - pos ->
    (2 <= fuel)%nat ->
    fst (snd (write_pages (logged bus) fuel page iw sel header data
                (Z.of_nat (length data)) pos 0 pages_written w)) =
    fst w
    ++ E_start_wait sel I2C_WRITE :: map (fun x => E_write (u8 x)) (header pos)
    ++ map E_write (firstn (Z.to_nat (page - pos)) data)
    ++ E_start_wait sel I2C_WRITE :: map (fun x => E_write (u8 x)) (header 0)
    ++ map E_write (skipn (Z.to_nat (page - pos)) data).
Proof.
  intros fuel pos pw w Hpos Hiw Hn Hcross Hfuel.
  destruct fuel as [|[|fuel]]; try lia.
  set (n := Z.of_nat (length data)) in *.
  set (k := Z.to_nat (page - pos)).
  cbn [write_pages].
  replace (0 <? n) with true by (symmetry; apply Z.ltb_lt; lia).
  rewrite (Z.mod_small pos iw) by lia.
  rewrite page_loop_spec by lia.
  cbn [fst snd].
  replace (0 + Z.min (page - pos) (n - 0)) with (page - pos) by lia.
  replace (Z.min (page - pos) (n - 0)) with (page - pos) by lia.
  replace (page - pos <? n) with true by (symmetry; apply Z.ltb_lt; lia).
  rewrite Z.mod_0_l by lia.
  rewrite page_loop_spec by lia.
  cbn [fst snd].
  replace (page - pos + Z.min (page - 0) (n - (page - pos))) with n by lia.
  replace (Z.min (page - 0) (n - (page - pos))) with (n - (page - pos)) by lia.
  assert (Hexit : forall pp ppw ww,
             write_pages (logged bus) fuel page iw sel header data n pp n ppw ww
             = (n, ww)).
  { intros. destruct fuel; cbn [write_pages]; [reflexivity|].
    rewrite Z.ltb_irrefl. reflexivity. }
  rewrite Hexit. cbn [fst snd].
  repeat (rewrite ?logged_send_payload, ?logged_send_bytes;
          cbn [fst snd logged i2c_start_wait]).
  fold k.
  rewrite payload_slice_prefix by lia.
  replace (page - pos) with (Z.of_nat k) by lia.
  replace (Z.to_nat (n - Z.of_nat k)) with (length data - k)%nat by lia.
  rewrite payload_slice_whole by lia.
  rewrite <- !app_assoc. reflexivity.
Qed.

(** The trace of [eeprom_write] when the range crosses exactly one page
    boundary, on any supported class: two write-mode starts, the payload cut
    at the boundary, one stop at the end. *)
Lemma write_trace_one_boundary (a : eeprom) (mem_address : Z) (data : list Z)
    (b : B) :
  supported (eeprom_size a) = true ->
  let c := eeprom_size a in
  let page := spec_page_size c in
  let pos := mem_address mod page in
  let sel := spec_select (eeprom_address a)
               (spec_address_bits_in_select_byte c) mem_address in
  let address extra :=
    map (fun x => E_write (u8 x))
      (spec_address_bytes (spec_uses_two_byte_address c) mem_address extra) in
  Z.of_nat (length data) < 65536 ->
  page - pos < Z.of_nat (length data) <= 2 * page - pos ->
  write_trace bus a mem_address data (Z.of_nat (length data)) b =
  E_start_wait sel I2C_WRITE :: address (page * pos)
  ++ map E_write (firstn (Z.to_nat (page - pos)) data)
  ++ E_start_wait sel I2C_WRITE :: address (page * 0)
  ++ map E_write (skipn (Z.to_nat (page - pos)) data)
  ++ [E_stop].
Proof.
  intros H c page pos sel address Hn Hcross.
  pose proof (spec_page_size_bounds c) as Hpage. fold page in Hpage.
  assert (Hpos : 0 <= pos < page) by (apply Z.mod_pos_bound; lia).
  unfold write_trace. rewrite eeprom_write_scheme by exact H.
  unfold scheme_write. fold c. fold page. fold pos. fold sel.
  cbn [logged i2c_stop fst snd].
  rewrite write_pages_two_chunks by lia.
  cbn [fst app]. unfold address.
  rewrite <- !app_assoc. cbn [app]. rewrite <- !app_assoc. reflexivity.
Qed.

(** On a supported class the write loop runs until every byte is written. *)
Lemma eeprom_write_completes (a : eeprom) (mem_address : Z) (data : list Z)
    (datasize : Z) (b : B) :
  supported (eeprom_size a) = true ->
  0 <= datasize < 65536 ->
  let page := spec_page_size (eeprom_size a) in
  fst (write_pages bus (Z.to_nat datasize) page
         (if page <? 256 then 256 else 65536)
         (spec_select (eeprom_address a)
            (spec_address_bits_in_select_byte (eeprom_size a)) mem_address)
         (fun pos => spec_address_bytes
                       (spec_uses_two_byte_address (eeprom_size a))
                       mem_address (page * pos))
         data datasize (mem_address mod page) 0 0 b) = datasize.
Proof.
  intros H Hn page.
  pose proof (spec_page_size_bounds (eeprom_size a)) as Hpage. fold page in Hpage.
  apply write_pages_all_written; try lia.
  apply Z.mod_pos_bound; lia.
Qed.

End WriteRuns.

(** A buffer that holds a byte exactly at the indices [0 .. n-1] holds [n]
    bytes. *)
Lemma size_of_filled_prefix (m : gmap Z Z) (n : Z) :
  0 <= n ->
  (forall j : Z,
      (0 <= j < n -> is_Some (m !! j)) /\ (~ 0 <= j < n -> m !! j = None)) ->
  size m = Z.to_nat n.
Proof.
  intros Hn H.
  rewrite <- size_dom.
  assert (Hdom : dom m = list_to_set (seqZ 0 n)).
  { apply set_eq. intros j.
    rewrite elem_of_dom, elem_of_list_to_set, elem_of_seqZ.
    destruct (H j) as [Hin Hout]. split.
    - intros Hsome. destruct (decide (0 <= j < n)) as [Hj|Hj]; [lia|].
      rewrite (Hout Hj) in Hsome. destruct Hsome as [x Hx]. discriminate.
    - intros Hj. apply Hin. lia. }
  rewrite Hdom. rewrite size_list_to_set by apply NoDup_seqZ.
  rewrite length_seqZ. reflexivity.
Qed.

(** * The claims *)

(** C7: for every capacity value outside the enumerated set, [eeprom_write]
    and [eeprom_read] start no transaction and transfer no byte: the only
    primitive either calls is the closing [i2c_stop].  The read stores
    nothing into the buffer, and the write leaves an ideal device as it was
    (its cells always, and its whole state when the bus was idle). *)
Theorem unsupported_capacity_no_transaction {B : Type} (bus : i2cmaster B)
    (a : eeprom) (mem_address : Z) (data : list Z) (buf : gmap Z Z)
    (datasize : Z) (b : B) :
  supported (eeprom_size a) = false ->
  eeprom_write bus a mem_address data datasize b = i2c_stop bus b /\
  eeprom_read bus a mem_address buf datasize b = (buf, i2c_stop bus b) /\
  write_trace bus a mem_address data datasize b = [E_stop] /\
  read_trace bus a mem_address buf datasize b = [E_stop] /\
  (forall (k : nat) (m : Z) (s : ideal),
      cells (eeprom_write (ideal_bus k m) a mem_address data datasize s) = cells s /\
      (mode s = Idle ->
       eeprom_write (ideal_bus k m) a mem_address data datasize s = s)).
Proof.
  intros H. repeat split.
  - apply eeprom_write_unsupported; exact H.
  - apply eeprom_read_unsupported; exact H.
  - unfold write_trace. rewrite eeprom_write_unsupported by exact H. reflexivity.
  - unfold read_trace. rewrite eeprom_read_unsupported by exact H. reflexivity.
  - rewrite eeprom_write_unsupported by exact H. reflexivity.
  - intros Hidle. rewrite eeprom_write_unsupported by exact H.
    destruct s as [cs p m']. simpl in Hidle. subst m'. reflexivity.
Qed.

Lemma unsupported_capacity_no_transaction_witness :
  supported (eeprom_size (device 3)) = false /\
  write_trace null_bus (device 3) 0 (ramp 4) 4 tt = [E_stop] /\
  read_trace null_bus (device 3) 0 ∅ 4 tt = [E_stop].
Proof.
  split; [reflexivity|].
  pose proof (unsupported_capacity_no_transaction null_bus (device 3) 0 (ramp 4)
                ∅ 4 tt eq_refl) as (_ & _ & Hw & Hr & _).
  split; [exact Hw | exact Hr].
Defined.

(** C8 as stated fails: [eeprom_init] with capacity 3, which is not in the
    enumerated set, returns a descriptor, where the specification's
    construction yields [UnsupportedCapacity]. *)
Lemma init_accepts_unsupported_capacity :
  supported 3 = false /\
  spec_construct 0xA0 3 = inl UnsupportedCapacity /\
  fst (eeprom_init null_bus 0xA0 3 tt) =
    {| eeprom_address := 0xA0; eeprom_size := 3 |} /\
  inr (fst (eeprom_init null_bus 0xA0 3 tt)) <> spec_construct 0xA0 3.
Proof.
  split; [reflexivity|]. split; [reflexivity|]. split; [reflexivity|].
  discriminate.
Qed.

(** C8, amended: [eeprom_init] has no failure result; with a capacity value
    outside the enumerated set it still returns the descriptor holding that
    value (after initialising the bus), and the reads and writes made with
    that descriptor start no transaction: each only calls [i2c_stop], and
    the read leaves the buffer as it was. *)
Theorem eeprom_init_always_constructs {B : Type} (bus : i2cmaster B)
    (dev_address size : Z) (b : B)
    (mem_address : Z) (data : list Z) (buf : gmap Z Z) (datasize : Z) (b' : B) :
  supported size = false ->
  eeprom_init bus dev_address size b =
    ({| eeprom_address := dev_address; eeprom_size := size |}, i2c_init bus b) /\
  eeprom_write bus (fst (eeprom_init bus dev_address size b))
    mem_address data datasize b' = i2c_stop bus b' /\
  eeprom_read bus (fst (eeprom_init bus dev_address size b))
    mem_address buf datasize b' = (buf, i2c_stop bus b').
Proof.
  intros H. split; [reflexivity|]. split.
  - apply eeprom_write_unsupported. exact H.
  - apply eeprom_read_unsupported. exact H.
Qed.

Lemma eeprom_init_always_constructs_witness :
  supported 3 = false /\
  eeprom_init null_bus 0xA0 3 tt =
    ({| eeprom_address := 0xA0; eeprom_size := 3 |}, tt) /\
  eeprom_write null_bus (fst (eeprom_init null_bus 0xA0 3 tt)) 0 (ramp 4) 4 tt = tt.
Proof.
  split; [reflexivity|].
  pose proof (eeprom_init_always_constructs null_bus 0xA0 3 tt 0 (ramp 4) ∅ 4 tt
                eq_refl) as (Hinit & Hw & _).
  split; [exact Hinit | exact Hw].
Defined.

(** C9: for every supported capacity class and every count from 1 to 65535,
    [eeprom_read] acknowledges each of the first count - 1 bytes and sends no
    acknowledge on the final byte only: the trace ends with exactly
    count - 1 [i2c_readAck] calls, one [i2c_readNak] and the stop, nothing
    before them reads a byte, and so the reads of the whole trace are
    count - 1 acknowledged reads followed by one read without acknowledge. *)
Theorem read_acks_all_but_last {B : Type} (bus : i2cmaster B) (a : eeprom)
    (mem_address : Z) (buf : gmap Z Z) (count : Z) (b : B) :
  supported (eeprom_size a) = true ->
  1 <= count < 65536 ->
  (exists pre : list event,
      read_trace bus a mem_address buf count b =
        pre ++ repeat E_readAck (Z.to_nat (count - 1)) ++ [E_readNak; E_stop] /\
      forallb (fun e => negb (is_byte_in e)) pre = true) /\
  List.filter is_byte_in (read_trace bus a mem_address buf count b) =
    repeat E_readAck (Z.to_nat (count - 1)) ++ [E_readNak].
Proof.
  intros H Hcount.
  rewrite (read_trace_supported bus a mem_address buf count b H).
  cbv zeta. rewrite (u16_small (count - 1)) by lia.
  split.
  - eexists. split.
    + rewrite app_assoc. reflexivity.
    + rewrite forallb_app. cbn [forallb is_byte_in negb andb].
      rewrite forallb_not_byte_in_header. reflexivity.
  - rewrite List.filter_app. cbn [List.filter is_byte_in app].
    rewrite filter_byte_in_header, filter_byte_in_acks. reflexivity.
Qed.

Lemma read_acks_all_but_last_witness :
  supported (eeprom_size (device 8)) = true /\
  1 <= 3 < 65536 /\
  List.filter is_byte_in (read_trace null_bus (device 8) 0 ∅ 3 tt) =
    [E_readAck; E_readAck; E_readNak].
Proof.
  split; [reflexivity|]. split; [lia|].
  exact (proj2 (read_acks_all_but_last null_bus (device 8) 0 ∅ 3 tt
                  eq_refl ltac:(lia))).
Defined.

(** C10: for every supported capacity class and every count from 1 to 65535,
    [eeprom_read] stores exactly count bytes into the caller's buffer, at the
    indices 0 through count - 1 and at no other index: after the call each
    of these indices holds a byte and every other index holds what it held
    before, so a buffer that was empty holds exactly count bytes. *)
Theorem read_stores_exactly_count {B : Type} (bus : i2cmaster B) (a : eeprom)
    (mem_address : Z) (buf : gmap Z Z) (count : Z) (b : B) :
  supported (eeprom_size a) = true ->
  1 <= count < 65536 ->
  (forall j : Z,
      (0 <= j < count ->
       is_Some (fst (eeprom_read bus a mem_address buf count b) !! j)) /\
      (~ 0 <= j < count ->
       fst (eeprom_read bus a mem_address buf count b) !! j = buf !! j)) /\
  size (fst (eeprom_read bus a mem_address ∅ count b)) = Z.to_nat count.
Proof.
  intros H Hcount.
  assert (Hbuf : forall (d : gmap Z Z) (j : Z),
             (0 <= j < count ->
              is_Some (fst (eeprom_read bus a mem_address d count b) !! j)) /\
             (~ 0 <= j < count ->
              fst (eeprom_read bus a mem_address d count b) !! j = d !! j)).
  { intros d j.
    destruct (read_buffer_supported bus a mem_address d count b j H) as [Hin Hout].
    rewrite (u16_small (count - 1)) in Hin, Hout by lia.
    split; intros Hj; [apply Hin | apply Hout]; lia. }
  split; [apply Hbuf|].
  apply size_of_filled_prefix; [lia|].
  intros j. destruct (Hbuf ∅ j) as [Hin Hout].
  split; [exact Hin|]. intros Hj. rewrite (Hout Hj). apply lookup_empty.
Qed.

Lemma read_stores_exactly_count_witness :
  supported (eeprom_size (device 8)) = true /\
  1 <= 3 < 65536 /\
  size (fst (eeprom_read null_bus (device 8) 0 ∅ 3 tt)) = Z.to_nat 3.
Proof.
  split; [reflexivity|]. split; [lia|].
  exact (proj2 (read_stores_exactly_count null_bus (device 8) 0 ∅ 3 tt
                  eq_refl ltac:(lia))).
Defined.

(** C5 on the code: with count = 0 the 16-bit [datasize - 1] wraps to 65535,
    so [eeprom_read] on the 8 Kbit device opens both transactions, reads
    65535 acknowledged bytes and one more without acknowledge, and stores up
    to index 65535 of the caller's buffer. *)
Theorem read_count_zero_reads_65536_bytes {B : Type} (bus : i2cmaster B)
    (buf : gmap Z Z) (b : B) :
  read_trace bus (device 8) 0 buf 0 b =
    [E_start_wait 0xA0 I2C_WRITE; E_write 0; E_stop; E_start_wait 0xA0 I2C_READ]
    ++ repeat E_readAck (Z.to_nat 65535) ++ [E_readNak; E_stop] /\
  is_Some (fst (eeprom_read bus (device 8) 0 buf 0 b) !! 0) /\
  is_Some (fst (eeprom_read bus (device 8) 0 buf 0 b) !! 65535).
Proof.
  split; [|split].
  - rewrite (read_trace_supported bus (device 8) 0 buf 0 b eq_refl).
    reflexivity.
  - apply (read_buffer_supported bus (device 8) 0 buf 0 b 0 eq_refl).
    change (u16 (0 - 1)) with 65535. lia.
  - apply (read_buffer_supported bus (device 8) 0 buf 0 b 65535 eq_refl).
    change (u16 (0 - 1)) with 65535. lia.
Qed.

(** C1 on the code: for capacity class 1024, writing 300 bytes at offset 0
    issues a first transaction of 256 payload bytes with address bytes
    0x00, 0x00 and a second transaction of 44 payload bytes whose address
    bytes are again 0x00, 0x00 (not 0x01, 0x00): [mem_address] is never
    advanced.  On the ideal device byte 256 of the payload lands at offset 0
    and offset 256 is never written. *)
Theorem write_300_class_1024_readdresses_offset_0 {B : Type} (bus : i2cmaster B)
    (b : B) :
  write_trace bus (device 1024) 0 (ramp 300) 300 b =
    E_start_wait 0xA0 I2C_WRITE :: E_write 0 :: E_write 0
      :: map E_write (firstn 256 (ramp 300))
    ++ E_start_wait 0xA0 I2C_WRITE :: E_write 0 :: E_write 0
      :: map E_write (skipn 256 (ramp 300))
    ++ [E_stop] /\
  map (addressed_range 1024)
      (transactions (write_trace bus (device 1024) 0 (ramp 300) 300 b)) =
    [Some (0, 256); Some (0, 44)] /\
  stored_at (device 1024) 0 (ramp 300) 256 = None /\
  stored_at (device 1024) 0 (ramp 300) 0 = Some (nth 256 (ramp 300) 0).
Proof. vm_compute. repeat split; reflexivity. Qed.

(** C2 on the code: on the 1 Kbit device (page size 8), writing the nine
    bytes 1..9 at offset 0 and reading nine bytes back from offset 0 over the
    ideal device returns 9, 2, ..., 8, 0xFF: the second chunk is addressed at
    offset 0 again, so it overwrites byte 0 and offset 8 is never written.
    A single byte written at the unaligned offset 1 is sent to address
    1 + 8 * 1 = 9 and is not read back either. *)
Theorem round_trip_fails_past_first_page :
  round_trip (device 1) 0 [1; 2; 3; 4; 5; 6; 7; 8; 9] =
    [Some 9; Some 2; Some 3; Some 4; Some 5; Some 6; Some 7; Some 8; Some 255] /\
  round_trip (device 1) 0 [1; 2; 3; 4; 5; 6; 7; 8; 9] <>
    map Some [1; 2; 3; 4; 5; 6; 7; 8; 9] /\
  round_trip (device 1) 1 [66] = [Some 255] /\
  stored_at (device 1) 1 [66] 9 = Some 66.
Proof.
  vm_compute. repeat split; try reflexivity. discriminate.
Qed.

(** C4 on the code: on the 8 Kbit device (page size 16), writing 20 bytes at
    offset 10 crosses one page boundary and issues two write-mode starts, the
    first with 6 payload bytes and the second with the remaining 14; but the
    first transaction is addressed at 10 + 16 * 10 = 170 and the second at
    offset 10, so the second addresses the 14 offsets 10..23, which are not
    within one page. *)
Theorem write_across_boundary_addresses {B : Type} (bus : i2cmaster B) (b : B) :
  transactions (write_trace bus (device 8) 10 (ramp 20) 20 b) =
    [(0xA0, 170 :: firstn 6 (ramp 20)); (0xA0, 10 :: skipn 6 (ramp 20))] /\
  length (List.filter is_write_start
            (write_trace bus (device 8) 10 (ramp 20) 20 b)) = 2%nat /\
  map (addressed_range 8)
      (transactions (write_trace bus (device 8) 10 (ramp 20) 20 b)) =
    [Some (170, 6); Some (10, 14)] /\
  within_one_page 16 (10, 14) = false.
Proof. vm_compute. repeat split; reflexivity. Qed.

(** C6 on the code: on the 1 Kbit device, writing nine bytes at offset 0
    opens the second transaction while the first is still open: the only
    [i2c_stop] of the trace is its last event, so the trace is not
    bracketed. *)
Theorem write_two_pages_single_stop {B : Type} (bus : i2cmaster B) (b : B) :
  write_trace bus (device 1) 0 (ramp 9) 9 b =
    [E_start_wait 0xA0 I2C_WRITE; E_write 0;
     E_write 0; E_write 1; E_write 2; E_write 3;
     E_write 4; E_write 5; E_write 6; E_write 7;
     E_start_wait 0xA0 I2C_WRITE; E_write 0;
     E_write 8; E_stop] /\
  bracketed false (write_trace bus (device 1) 0 (ramp 9) 9 b) = false.
Proof. vm_compute. split; reflexivity. Qed.

(** * Further properties of the driver *)

(** ** Traces and transactions *)

Lemma transactions_from_writes (xs : list Z) :
  forall (sel : Z) (acc : list Z) (rest : list event),
    transactions_from (Some (sel, acc)) (map E_write xs ++ rest) =
    transactions_from (Some (sel, acc ++ xs)) rest.
Proof.
  induction xs as [|x xs IH]; intros sel acc rest.
  - simpl. rewrite app_nil_r. reflexivity.
  - simpl. rewrite IH. rewrite <- app_assoc. reflexivity.
Qed.

(** Reading back the transactions of a rendered list of transactions. *)
Lemma transactions_from_render (l : list (Z * list Z)) :
  forall cur : option (Z * list Z),
    transactions_from cur (flat_map txn_events l ++ [E_stop]) =
    match cur with Some c => [c] | None => [] end ++ l.
Proof.
  induction l as [|[sel bs] l IH]; intros cur.
  - simpl. destruct cur; reflexivity.
  - cbn [flat_map txn_events fst snd app transactions_from].
    rewrite <- app_assoc. rewrite transactions_from_writes.
    rewrite IH. reflexivity.
Qed.

Lemma filter_write_start_render (l : list (Z * list Z)) :
  length (List.filter is_write_start (flat_map txn_events l ++ [E_stop])) = length l.
Proof.
  induction l as [|[sel bs] l IH]; [reflexivity|].
  cbn [flat_map txn_events fst snd app List.filter is_write_start length].
  rewrite <- app_assoc, List.filter_app.
  assert (H : List.filter is_write_start (map E_write bs) = [])
    by (clear; induction bs as [|x bs IHbs]; [reflexivity | exact IHbs]).
  rewrite H. cbn [app]. rewrite IH. reflexivity.
Qed.

Section ChunkRuns.

Context {B : Type} (bus : i2cmaster B).

(** The trace of the [while] loop of [eeprom_write] is the rendering of its
    chunks, whatever the bus and the fuel. *)
Lemma logged_write_pages (page iw sel : Z) (header : Z -> list Z)
    (data : list Z) (datasize : Z) :
  forall (fuel : nat) (pos bytes_written pages_written : Z) (w : list event * B),
    0 <= pos <= page -> 0 < page < iw ->
    0 <= bytes_written <= datasize -> datasize < 65536 ->
    fst (snd (write_pages (logged bus) fuel page iw sel header data datasize
                pos bytes_written pages_written w)) =
    fst w ++ flat_map txn_events
               (write_chunks fuel page sel header data datasize pos bytes_written).
Proof.
  induction fuel as [|fuel IH]; intros pos bw pw w Hpos Hpage Hbw Hn.
  - simpl. rewrite app_nil_r. reflexivity.
  - cbn [write_pages write_chunks].
    destruct (bw <? datasize) eqn:E;
      [apply Z.ltb_lt in E | simpl; rewrite app_nil_r; reflexivity].
    rewrite (Z.mod_small pos iw) by lia.
    rewrite page_loop_spec by lia.
    cbn [fst snd].
    rewrite IH by lia.
    rewrite logged_send_payload, logged_send_bytes.
    cbn [fst snd logged i2c_start_wait flat_map txn_events].
    unfold txn_events at 2. cbn [fst snd app].
    rewrite map_app, map_map, <- !app_assoc. reflexivity.
Qed.

End ChunkRuns.

(** ** The chunks of a write *)

Lemma payload_slice_app (data : list Z) (from : Z) (n1 n2 : nat) :
  0 <= from ->
  payload_slice data from (n1 + n2) =
  payload_slice data from n1 ++ payload_slice data (from + Z.of_nat n1) n2.
Proof.
  intros Hfrom. unfold payload_slice.
  rewrite seq_app, map_app.
  replace (Z.to_nat (from + Z.of_nat n1)) with (Z.to_nat from + n1)%nat by lia.
  reflexivity.
Qed.

Lemma write_chunks_done (fuel : nat) (page sel : Z) (header : Z -> list Z)
    (data : list Z) (datasize pos : Z) :
  write_chunks fuel page sel header data datasize pos datasize = [].
Proof.
  destruct fuel; [reflexivity|]. cbn [write_chunks].
  rewrite Z.ltb_irrefl. reflexivity.
Qed.

Section Chunks.

Variables (page sel : Z) (header : Z -> list Z) (data : list Z) (datasize : Z).
Variable k : nat.
Hypothesis header_length : forall pos, length (header pos) = k.
Hypothesis page_pos : 0 < page.

(** The payloads of the chunks, in order, are the bytes not yet written. *)
Lemma write_chunks_payload :
  forall (fuel : nat) (pos bytes_written : Z),
    0 <= pos < page -> 0 <= bytes_written <= datasize ->
    (Z.to_nat (datasize - bytes_written) <= fuel)%nat ->
    concat (map (fun t => skipn k (snd t))
              (write_chunks fuel page sel header data datasize pos bytes_written)) =
    payload_slice data bytes_written (Z.to_nat (datasize - bytes_written)).
Proof.
  induction fuel as [|fuel IH]; intros pos bw Hpos Hbw Hfuel.
  - replace (Z.to_nat (datasize - bw)) with O by lia. reflexivity.
  - cbn [write_chunks].
    destruct (bw <? datasize) eqn:E;
      [apply Z.ltb_lt in E | apply Z.ltb_ge in E].
    + cbn [map concat snd].
      rewrite skipn_app, skipn_all2 by (rewrite length_map, header_length; lia).
      rewrite length_map, header_length, Nat.sub_diag. cbn [skipn app].
      set (m := Z.min (page - pos) (datasize - bw)).
      rewrite IH by lia.
      replace (Z.to_nat (datasize - bw))
        with (Z.to_nat m + Z.to_nat (datasize - (bw + m)))%nat by lia.
      rewrite payload_slice_app by lia.
      rewrite Z2Nat.id by lia. reflexivity.
    + replace (Z.to_nat (datasize - bw)) with O by lia. reflexivity.
Qed.

(** Every chunk is opened with the same select value and carries at most one
    page of payload after its address bytes. *)
Lemma write_chunks_bounded :
  forall (fuel : nat) (pos bytes_written : Z),
    0 <= pos < page ->
    Forall (fun t => fst t = sel /\
                     (k <= length (snd t) <= k + Z.to_nat page)%nat)
      (write_chunks fuel page sel header data datasize pos bytes_written).
Proof.
  induction fuel as [|fuel IH]; intros pos bw Hpos.
  - constructor.
  - cbn [write_chunks].
    destruct (bw <? datasize) eqn:E; [|constructor].
    constructor.
    + split; [reflexivity|]. cbn [snd].
      rewrite length_app, length_map, header_length.
      unfold payload_slice. rewrite length_map, length_seq. lia.
    + apply IH. lia.
Qed.

(** Every chunk issued from position 0 carries the address bytes computed for
    position 0. *)
Lemma write_chunks_header_0 :
  forall (fuel : nat) (bytes_written : Z),
    Forall (fun t => firstn k (snd t) = map u8 (header 0))
      (write_chunks fuel page sel header data datasize 0 bytes_written).
Proof.
  induction fuel as [|fuel IH]; intros bw.
  - constructor.
  - cbn [write_chunks].
    destruct (bw <? datasize) eqn:E; [|constructor].
    constructor; [|apply IH].
    cbn [snd]. rewrite firstn_app, length_map, header_length, Nat.sub_diag.
    cbn [firstn]. rewrite app_nil_r.
    apply firstn_all2. rewrite length_map, header_length. lia.
Qed.

(** One chunk per page the remaining range touches. *)
Lemma write_chunks_count :
  forall (fuel : nat) (pos bytes_written : Z),
    0 <= pos < page -> 0 <= bytes_written < datasize ->
    (Z.to_nat (datasize - bytes_written) <= fuel)%nat ->
    Z.of_nat (length (write_chunks fuel page sel header data datasize
                        pos bytes_written)) =
    (pos + (datasize - bytes_written) - 1) / page + 1.
Proof.
  induction fuel as [|fuel IH]; intros pos bw Hpos Hbw Hfuel.
  - lia.
  - cbn [write_chunks].
    replace (bw <? datasize) with true by (symmetry; apply Z.ltb_lt; lia).
    cbn [length].
    set (m := Z.min (page - pos) (datasize - bw)).
    destruct (Z.eq_dec (bw + m) datasize) as [Heq|Hne].
    + rewrite Heq, write_chunks_done. cbn [length].
      rewrite Z.div_small by lia. reflexivity.
    + rewrite Nat2Z.inj_succ, IH by lia.
      assert (Hm : m = page - pos) by lia.
      replace (pos + (datasize - bw) - 1)
        with (1 * page + (0 + (datasize - (bw + m)) - 1)) by lia.
      rewrite Z.div_add_l by lia. lia.
Qed.

End Chunks.

Lemma spec_address_bytes_length (two_byte : bool) (mem_address extra : Z) :
  length (spec_address_bytes two_byte mem_address extra) =
  if two_byte then 2%nat else 1%nat.
Proof. destruct two_byte; reflexivity. Qed.

Lemma bracketed_open_writes (xs : list Z) (rest : list event) :
  bracketed true (map E_write xs ++ rest) = bracketed true rest.
Proof. induction xs as [|x xs IH]; [reflexivity | exact IH]. Qed.

Lemma bracketed_render (l : list (Z * list Z)) :
  bracketed false (flat_map txn_events l ++ [E_stop]) = (length l <=? 1)%nat.
Proof.
  destruct l as [|[s1 b1] [|[s2 b2] l]].
  - reflexivity.
  - cbn [flat_map txn_events fst snd app bracketed negb andb length].
    rewrite app_nil_r, bracketed_open_writes. reflexivity.
  - cbn [flat_map txn_events fst snd app bracketed negb andb length].
    rewrite <- app_assoc, bracketed_open_writes. reflexivity.
Qed.

Section WriteChunks.

Context {B : Type} (bus : i2cmaster B).

(** The trace of [eeprom_write] on a supported class: its chunks, then the
    stop. *)
Lemma write_trace_chunks (a : eeprom) (mem_address : Z) (data : list Z)
    (datasize : Z) (b : B) :
  supported (eeprom_size a) = true ->
  0 <= datasize < 65536 ->
  let c := eeprom_size a in
  let page := spec_page_size c in
  write_trace bus a mem_address data datasize b =
  flat_map txn_events
    (write_chunks (Z.to_nat datasize) page
       (spec_select (eeprom_address a) (spec_address_bits_in_select_byte c)
          mem_address)
       (fun pos => spec_address_bytes (spec_uses_two_byte_address c)
                     mem_address (page * pos))
       data datasize (mem_address mod page) 0)
  ++ [E_stop].
Proof.
  intros H Hn c page.
  pose proof (spec_page_size_bounds c) as Hpage. fold page in Hpage.
  assert (Hpos : 0 <= mem_address mod page < page) by (apply Z.mod_pos_bound; lia).
  unfold write_trace. rewrite eeprom_write_scheme by exact H.
  unfold scheme_write. fold c. fold page.
  cbn [logged i2c_stop fst snd].
  rewrite logged_write_pages by lia.
  reflexivity.
Qed.

End WriteChunks.

(** ** Segmentation of a write *)

(** X1: on every supported capacity class, [eeprom_write] sends every payload
    byte exactly once and in order: the payloads of its transactions (what
    follows the address bytes), put end to end, are the data.  Every
    transaction is opened with the same select value and carries its address
    bytes and at most one page of payload. *)
Theorem write_sends_payload_once_in_order {B : Type} (bus : i2cmaster B)
    (a : eeprom) (mem_address : Z) (data : list Z) (b : B) :
  supported (eeprom_size a) = true ->
  Z.of_nat (length data) < 65536 ->
  let c := eeprom_size a in
  let txns := transactions
                (write_trace bus a mem_address data (Z.of_nat (length data)) b) in
  concat (map (fun t => skipn (address_width c) (snd t)) txns) = data /\
  Forall (fun t =>
            fst t = spec_select (eeprom_address a)
                      (spec_address_bits_in_select_byte c) mem_address /\
            (address_width c <= length (snd t)
             <= address_width c + Z.to_nat (spec_page_size c))%nat) txns.
Proof.
  intros H Hn c txns. subst txns.
  pose proof (spec_page_size_bounds c) as Hpage.
  assert (Hpos : 0 <= mem_address mod spec_page_size c < spec_page_size c)
    by (apply Z.mod_pos_bound; lia).
  rewrite write_trace_chunks by (try exact H; lia).
  unfold transactions. rewrite transactions_from_render. cbn [app]. fold c.
  split.
  - pose proof (write_chunks_payload (spec_page_size c)
                  (spec_select (eeprom_address a)
                     (spec_address_bits_in_select_byte c) mem_address)
                  (fun pos => spec_address_bytes (spec_uses_two_byte_address c)
                                mem_address (spec_page_size c * pos))
                  data (Z.of_nat (length data)) (address_width c)
                  (fun pos => spec_address_bytes_length _ _ _) ltac:(lia)
                  (Z.to_nat (Z.of_nat (length data)))
                  (mem_address mod spec_page_size c) 0
                  Hpos ltac:(lia) ltac:(lia)) as Hpayload.
    rewrite Hpayload.
    rewrite Z.sub_0_r, Nat2Z.id.
    rewrite payload_slice_prefix; [apply firstn_all | lia].
  - apply write_chunks_bounded;
      [intros pos; apply spec_address_bytes_length | lia | lia].
Qed.

Lemma write_sends_payload_once_in_order_witness :
  supported (eeprom_size (device 8)) = true /\
  Z.of_nat (length (ramp 20)) < 65536 /\
  concat (map (fun t => skipn 1 (snd t))
            (transactions (write_trace null_bus (device 8) 10 (ramp 20) 20 tt))) =
    ramp 20.
Proof.
  split; [reflexivity|]. split; [reflexivity|].
  exact (proj1 (write_sends_payload_once_in_order null_bus (device 8) 10 (ramp 20) tt
                  eq_refl eq_refl)).
Defined.

(** X2: on every supported capacity class, a write of at least one byte
    issues one write-mode start per page the range touches: the number of
    transactions, and of write-mode starts in the trace, is
    (mem_address + n - 1) / page - mem_address / page + 1. *)
Theorem write_one_start_per_page {B : Type} (bus : i2cmaster B)
    (a : eeprom) (mem_address : Z) (data : list Z) (b : B) :
  supported (eeprom_size a) = true ->
  1 <= Z.of_nat (length data) < 65536 ->
  let page := spec_page_size (eeprom_size a) in
  let n := Z.of_nat (length data) in
  let trace := write_trace bus a mem_address data n b in
  Z.of_nat (length (transactions trace)) =
    (mem_address + n - 1) / page - mem_address / page + 1 /\
  length (List.filter is_write_start trace) = length (transactions trace).
Proof.
  intros H Hn page n trace. subst trace.
  pose proof (spec_page_size_bounds (eeprom_size a)) as Hpage. fold page in Hpage.
  assert (Hpos : 0 <= mem_address mod page < page) by (apply Z.mod_pos_bound; lia).
  rewrite write_trace_chunks by (try exact H; lia).
  fold page. unfold transactions.
  rewrite transactions_from_render, filter_write_start_render. cbn [app].
  split; [|reflexivity].
  rewrite (write_chunks_count _ _ _ _ _) by (fold n; lia).
  rewrite Z.sub_0_r. fold n.
  rewrite (Z.div_mod mem_address page) at 2 by lia.
  replace (page * (mem_address / page) + mem_address mod page + n - 1)
    with (mem_address / page * page + (mem_address mod page + n - 1)) by lia.
  rewrite Z.div_add_l by lia. lia.
Qed.

Lemma write_one_start_per_page_witness :
  supported (eeprom_size (device 8)) = true /\
  1 <= Z.of_nat (length (ramp 40)) < 65536 /\
  Z.of_nat (length (transactions
                      (write_trace null_bus (device 8) 10 (ramp 40) 40 tt))) = 4.
Proof.
  assert (Hn : 1 <= Z.of_nat (length (ramp 40)) < 65536)
    by (vm_compute; split; [discriminate | reflexivity]).
  split; [reflexivity|]. split; [exact Hn|].
  pose proof (write_one_start_per_page null_bus (device 8) 10 (ramp 40) tt
                eq_refl Hn) as Hw.
  cbv zeta in Hw. destruct Hw as [Hw _].
  vm_compute in Hw |- *. exact Hw.
Defined.

(** X3: on every supported capacity class, every transaction of a write after
    the first starts with the address bytes of [mem_address] itself: the
    loop never advances the address it sends. *)
Theorem write_later_chunks_reuse_address {B : Type} (bus : i2cmaster B)
    (a : eeprom) (mem_address : Z) (data : list Z) (b : B) :
  supported (eeprom_size a) = true ->
  Z.of_nat (length data) < 65536 ->
  let c := eeprom_size a in
  Forall (fun t =>
            firstn (address_width c) (snd t) =
            map u8 (spec_address_bytes (spec_uses_two_byte_address c)
                      mem_address 0))
    (tl (transactions
           (write_trace bus a mem_address data (Z.of_nat (length data)) b))).
Proof.
  intros H Hn c.
  pose proof (spec_page_size_bounds c) as Hpage.
  rewrite write_trace_chunks by (try exact H; lia).
  unfold transactions. rewrite transactions_from_render. cbn [app]. fold c.
  destruct (Z.to_nat (Z.of_nat (length data))) as [|fuel]; [constructor|].
  cbn [write_chunks].
  destruct (0 <? Z.of_nat (length data)); [|constructor].
  cbn [tl].
  pose proof (write_chunks_header_0 (spec_page_size c)
                (spec_select (eeprom_address a)
                   (spec_address_bits_in_select_byte c) mem_address)
                (fun pos => spec_address_bytes (spec_uses_two_byte_address c)
                              mem_address (spec_page_size c * pos))
                data (Z.of_nat (length data)) (address_width c)
                (fun pos => spec_address_bytes_length _ _ _) fuel) as Hall.
  cbv beta in Hall. rewrite Z.mul_0_r in Hall. apply Hall.
Qed.

Lemma write_later_chunks_reuse_address_witness :
  supported (eeprom_size (device 8)) = true /\
  Z.of_nat (length (ramp 40)) < 65536 /\
  Forall (fun t => firstn 1 (snd t) = [10])
    (tl (transactions (write_trace null_bus (device 8) 10 (ramp 40) 40 tt))).
Proof.
  split; [reflexivity|]. split; [reflexivity|].
  exact (write_later_chunks_reuse_address null_bus (device 8) 10 (ramp 40) tt
           eq_refl eq_refl).
Defined.

(** X4: on every supported capacity class, the trace of a write of at least
    one byte is bracketed (no start while a transaction is open, none left
    open) exactly when the range fits in the page of its first byte; a write
    that needs a second chunk opens it before any stop. *)
Theorem write_bracketed_iff_within_page {B : Type} (bus : i2cmaster B)
    (a : eeprom) (mem_address : Z) (data : list Z) (b : B) :
  supported (eeprom_size a) = true ->
  1 <= Z.of_nat (length data) < 65536 ->
  let page := spec_page_size (eeprom_size a) in
  let n := Z.of_nat (length data) in
  bracketed false (write_trace bus a mem_address data n b) =
  (mem_address mod page + n <=? page).
Proof.
  intros H Hn page n.
  pose proof (spec_page_size_bounds (eeprom_size a)) as Hpage. fold page in Hpage.
  assert (Hpos : 0 <= mem_address mod page < page) by (apply Z.mod_pos_bound; lia).
  rewrite write_trace_chunks by (try exact H; lia).
  fold page. rewrite bracketed_render.
  pose proof (write_chunks_count page
                (spec_select (eeprom_address a)
                   (spec_address_bits_in_select_byte (eeprom_size a)) mem_address)
                (fun pos => spec_address_bytes
                              (spec_uses_two_byte_address (eeprom_size a))
                              mem_address (page * pos))
                data n ltac:(lia) (Z.to_nat n) (mem_address mod page) 0
                Hpos ltac:(lia) ltac:(lia)) as Hcount.
  rewrite Z.sub_0_r in Hcount.
  destruct (Z.leb_spec (mem_address mod page + n) page) as [Hfit|Hover].
  - rewrite Z.div_small in Hcount by lia.
    apply Nat.leb_le. lia.
  - assert (1 <= (mem_address mod page + n - 1) / page)
      by (apply Z.div_le_lower_bound; lia).
    apply Nat.leb_gt. lia.
Qed.

Lemma write_bracketed_iff_within_page_witness :
  supported (eeprom_size (device 8)) = true /\
  1 <= Z.of_nat (length (ramp 6)) < 65536 /\
  bracketed false (write_trace null_bus (device 8) 10 (ramp 6) 6 tt) = true.
Proof.
  assert (Hn : 1 <= Z.of_nat (length (ramp 6)) < 65536)
    by (vm_compute; split; [discriminate | reflexivity]).
  split; [reflexivity|]. split; [exact Hn|].
  pose proof (write_bracketed_iff_within_page null_bus (device 8) 10 (ramp 6) tt
                eq_refl Hn) as Hw.
  cbv zeta in Hw. vm_compute in Hw |- *. exact Hw.
Defined.

(** X5: whatever the capacity value, [eeprom_write] with [datasize = 0]
    starts no transaction and sends no byte: no loop body runs and the only
    primitive called is the closing [i2c_stop]. *)
Theorem write_nothing_issues_only_stop {B : Type} (bus : i2cmaster B)
    (a : eeprom) (mem_address : Z) (data : list Z) (b : B) :
  eeprom_write bus a mem_address data 0 b = i2c_stop bus b /\
  write_trace bus a mem_address data 0 b = [E_stop].
Proof.
  assert (Hany : forall (B' : Type) (bus' : i2cmaster B') (b' : B'),
             eeprom_write bus' a mem_address data 0 b' = i2c_stop bus' b').
  { intros B' bus' b'. unfold eeprom_write.
    change (Z.to_nat 0) with O. cbn [write_pages snd].
    repeat match goal with
           | |- context [if ?t then _ else _] => destruct t
           end; reflexivity. }
  split; [apply Hany|].
  unfold write_trace. rewrite Hany. reflexivity.
Qed.

(** ** The transactions of a read *)

Lemma bracketed_address_bytes (open : bool) (xs : list Z) (rest : list event) :
  bracketed open (map (fun x => E_write (u8 x)) xs ++ rest) = bracketed open rest.
Proof. induction xs as [|x xs IH]; [reflexivity | exact IH]. Qed.

Lemma bracketed_acks (open : bool) (n : nat) (rest : list event) :
  bracketed open (repeat E_readAck n ++ rest) = bracketed open rest.
Proof. induction n as [|n IH]; [reflexivity | exact IH]. Qed.

Lemma filter_start_address_bytes (xs : list Z) :
  List.filter is_start (map (fun x => E_write (u8 x)) xs) = [].
Proof. induction xs as [|x xs IH]; [reflexivity | exact IH]. Qed.

Lemma filter_start_acks (n : nat) (rest : list event) :
  List.filter is_start (repeat E_readAck n ++ rest) = List.filter is_start rest.
Proof. induction n as [|n IH]; [reflexivity | exact IH]. Qed.

(** X6: on every supported capacity class and for every count, the trace of
    [eeprom_read] is bracketed: the pointer-setting transaction is closed by
    a stop before the read-mode transaction is opened, and that one is
    closed before the call returns.  The trace holds exactly two starts, a
    write-mode one and a read-mode one, with the same select value. *)
Theorem read_trace_bracketed {B : Type} (bus : i2cmaster B) (a : eeprom)
    (mem_address : Z) (buf : gmap Z Z) (count : Z) (b : B) :
  supported (eeprom_size a) = true ->
  let sel := spec_select (eeprom_address a)
               (spec_address_bits_in_select_byte (eeprom_size a)) mem_address in
  bracketed false (read_trace bus a mem_address buf count b) = true /\
  List.filter is_start (read_trace bus a mem_address buf count b) =
    [E_start_wait sel I2C_WRITE; E_start_wait sel I2C_READ].
Proof.
  intros H sel.
  rewrite (read_trace_supported bus a mem_address buf count b H).
  cbv zeta. fold sel. split.
  - cbn [app bracketed negb andb].
    rewrite bracketed_address_bytes. cbn [app bracketed negb andb].
    rewrite bracketed_acks. reflexivity.
  - rewrite List.filter_app. cbn [List.filter is_start app].
    rewrite filter_start_address_bytes, filter_start_acks. reflexivity.
Qed.

Lemma read_trace_bracketed_witness :
  supported (eeprom_size (device 8)) = true /\
  bracketed false (read_trace null_bus (device 8) 0x123 ∅ 5 tt) = true.
Proof.
  split; [reflexivity|].
  exact (proj1 (read_trace_bracketed null_bus (device 8) 0x123 ∅ 5 tt eq_refl)).
Defined.

(** ** The driver over the ideal device *)

Lemma ideal_send_payload (k : nat) (m : Z) (xs : list Z) :
  forall s : ideal,
    mode s = Storing ->
    mode (send_payload (ideal_bus k m) xs s) = Storing /\
    pointer (send_payload (ideal_bus k m) xs s) = pointer s + Z.of_nat (length xs) /\
    forall o : Z,
      cells (send_payload (ideal_bus k m) xs s) !! o =
      if decide (pointer s <= o < pointer s + Z.of_nat (length xs))
      then Some (nth (Z.to_nat (o - pointer s)) xs 0)
      else cells s !! o.
Proof.
  induction xs as [|x xs IH]; intros s Hmode.
  - simpl. split; [exact Hmode|]. split; [lia|].
    intros o. destruct (decide _); [lia | reflexivity].
  - unfold send_payload in *. cbn [fold_left].
    set (s1 := i2c_write (ideal_bus k m) x s).
    assert (Hs1 : s1 = {| cells := <[pointer s := x]> (cells s);
                          pointer := pointer s + 1; mode := Storing |}).
    { subst s1. cbn [ideal_bus i2c_write]. rewrite Hmode. reflexivity. }
    destruct (IH s1 ltac:(rewrite Hs1; reflexivity)) as (Hm & Hp & Hc).
    split; [exact Hm|]. split.
    + rewrite Hp, Hs1. cbn [pointer length]. lia.
    + intros o. rewrite Hc, Hs1. cbn [pointer cells length].
      destruct (decide (pointer s + 1 <= o < pointer s + 1 + Z.of_nat (length xs)))
        as [Hin|Hout]; destruct (decide (pointer s <= o < pointer s + Z.of_nat (S (length xs))))
        as [Hin'|Hout']; try lia.
      * replace (Z.to_nat (o - pointer s)) with (S (Z.to_nat (o - (pointer s + 1)))) by lia.
        reflexivity.
      * assert (o = pointer s) by lia. subst o.
        rewrite lookup_insert_eq, Z.sub_diag. reflexivity.
      * apply lookup_insert_ne. lia.
Qed.

Lemma ideal_read_loop (k : nat) (m : Z) (last : Z) :
  forall (fuel : nat) (data : gmap Z Z) (br : Z) (s : ideal),
    mode s = Sending ->
    0 <= br <= last -> last < 65536 ->
    (Z.to_nat (last - br) <= fuel)%nat ->
    snd (read_loop (ideal_bus k m) fuel last data br s) =
      {| cells := cells s; pointer := pointer s + (last - br); mode := Sending |} /\
    forall j : Z,
      fst (fst (read_loop (ideal_bus k m) fuel last data br s)) !! j =
      if decide (br <= j < last)
      then Some (default 255 (cells s !! (pointer s + (j - br))))
      else data !! j.
Proof.
  induction fuel as [|fuel IH]; intros data br s Hmode Hbr Hlast Hfuel.
  - assert (br = last) by lia. subst br. simpl. split.
    + destruct s as [cs p md]. simpl in *. subst md. f_equal. lia.
    + intros j. destruct (decide _); [lia | reflexivity].
  - cbn [read_loop].
    destruct (br <? last) eqn:E; [apply Z.ltb_lt in E | apply Z.ltb_ge in E].
    + rewrite (u16_small (br + 1)) by lia.
      set (r := i2c_readAck (ideal_bus k m) s).
      assert (Hr : r = (default 255 (cells s !! pointer s),
                        {| cells := cells s; pointer := pointer s + 1; mode := Sending |})).
      { subst r. cbn [ideal_bus i2c_readAck]. rewrite Hmode. reflexivity. }
      rewrite Hr. cbn [fst snd].
      edestruct (IH (<[br := default 255 (cells s !! pointer s)]> data) (br + 1)
                   {| cells := cells s; pointer := pointer s + 1; mode := Sending |})
        as [Hs Hb]; [reflexivity | lia | lia | lia |].
      split.
      * rewrite Hs. cbn [cells pointer]. f_equal. lia.
      * intros j. rewrite Hb. cbn [cells pointer].
        destruct (decide (br + 1 <= j < last)); destruct (decide (br <= j < last)); try lia.
        -- f_equal. f_equal. f_equal. lia.
        -- assert (j = br) by lia. subst j.
           rewrite lookup_insert_eq, Z.sub_diag, Z.add_0_r. reflexivity.
        -- apply lookup_insert_ne. lia.
    + assert (br = last) by lia. subst br. simpl. split.
      * destruct s as [cs p md]. simpl in *. subst md. f_equal. lia.
      * intros j. destruct (decide _); [lia | reflexivity].
Qed.

Lemma ideal_read_bytes (k : nat) (m : Z) (data : gmap Z Z) (n : Z) (s : ideal) :
  mode s = Sending ->
  cells (snd (read_bytes (ideal_bus k m) data n s)) = cells s /\
  forall j : Z,
    fst (read_bytes (ideal_bus k m) data n s) !! j =
    if decide (0 <= j <= u16 (n - 1))
    then Some (default 255 (cells s !! (pointer s + j)))
    else data !! j.
Proof.
  intros Hmode. unfold read_bytes.
  assert (Hrange : 0 <= u16 (n - 1) < 65536)
    by (unfold u16; apply Z.mod_pos_bound; lia).
  set (last := u16 (n - 1)) in *.
  destruct (ideal_read_loop k m last (Z.to_nat last) data 0 s Hmode
              ltac:(lia) ltac:(lia) ltac:(lia)) as [Hs Hb].
  rewrite (read_loop_count (ideal_bus k m) last (Z.to_nat last) data 0 s)
    by lia.
  rewrite Hs. cbn [ideal_bus i2c_readNak mode cells pointer fst snd].
  split; [reflexivity|].
  intros j. destruct (decide (0 <= j <= last)) as [Hj|Hj].
  - destruct (Z.eq_dec j last) as [->|Hne].
    + rewrite lookup_insert_eq. rewrite Z.sub_0_r. reflexivity.
    + rewrite lookup_insert_ne by lia. rewrite Hb.
      destruct (decide (0 <= j < last)); [|lia]. rewrite Z.sub_0_r. reflexivity.
  - rewrite lookup_insert_ne by lia. rewrite Hb.
    destruct (decide (0 <= j < last)); [lia | reflexivity].
Qed.

(** *** Address arithmetic *)

Lemma low_byte_of_offset (mem extra : Z) :
  extra mod 256 = 0 -> u8 (u8 mem + extra) = mem mod 256.
Proof.
  intros H. unfold u8.
  rewrite Z.add_mod, H, Z.add_0_r by lia.
  rewrite !Z.mod_mod by lia. reflexivity.
Qed.

Lemma low_byte_of_masked_offset (mem extra : Z) :
  extra mod 256 = 0 -> u8 (Z.land mem 0x00FF + extra) = mem mod 256.
Proof.
  intros H. change 0x00FF with (Z.ones 8). rewrite Z.land_ones by lia.
  change (2 ^ 8) with 256. unfold u8.
  rewrite Z.add_mod, H, Z.add_0_r by lia.
  rewrite !Z.mod_mod by lia. reflexivity.
Qed.

Lemma high_byte_of_offset (mem : Z) :
  0 <= mem < 65536 -> u8 (Z.shiftr (Z.land mem 0xFF00) 8) = mem / 256.
Proof.
  intros H. rewrite Z.shiftr_land.
  change (Z.shiftr 0xFF00 8) with (Z.ones 8).
  rewrite Z.land_ones, Z.shiftr_div_pow2 by lia.
  change (2 ^ 8) with 256.
  assert (0 <= mem / 256 < 256)
    by (split; [apply Z.div_pos; lia | apply Z.div_lt_upper_bound; lia]).
  rewrite Z.mod_small by lia. apply u8_small. lia.
Qed.

(** The folded bits of the select value are recovered by the device's mask
    when the bits of the bus address under the mask are clear. *)
Lemma select_bits_recover (addr mem b : Z) :
  0 <= b ->
  Z.land 255 (Z.ones b) = Z.ones b ->
  Z.land addr (Z.ones b) = 0 ->
  0 <= mem < 256 * 2 ^ b ->
  Z.land (u8 (Z.lor addr (Z.land (Z.shiftr mem 8) (Z.ones b)))) (Z.ones b) =
  mem / 256.
Proof.
  intros Hb Hmask Haddr Hmem.
  unfold u8. change 256 with (2 ^ 8) at 1. rewrite <- Z.land_ones by lia.
  change (Z.ones 8) with 255.
  rewrite <- Z.land_assoc, Hmask.
  rewrite Z.land_lor_distr_l, Haddr, Z.lor_0_l.
  rewrite <- Z.land_assoc, Z.land_diag.
  rewrite Z.land_ones, Z.shiftr_div_pow2 by lia.
  change (2 ^ 8) with 256.
  apply Z.mod_small. split; [apply Z.div_pos; lia|].
  apply Z.div_lt_upper_bound; lia.
Qed.

Lemma ideal_addressing (c addr mem extra : Z) (s : ideal) :
  supported c = true ->
  Z.land addr (2 ^ spec_address_bits_in_select_byte c - 1) = 0 ->
  0 <= mem < addressable c ->
  extra mod 256 = 0 ->
  send_bytes (ideal_device c)
    (spec_address_bytes (spec_uses_two_byte_address c) mem extra)
    (i2c_start_wait (ideal_device c)
       (spec_select addr (spec_address_bits_in_select_byte c) mem) I2C_WRITE s) =
  {| cells := cells s; pointer := mem; mode := Storing |}.
Proof.
  intros H Haddr Hmem Hextra.
  assert (Hsplit : mem / 256 * 256 + mem mod 256 = mem)
    by (pose proof (Z.div_mod mem 256 ltac:(lia)); lia).
  destruct (supported_cases c H)
    as [->|[->|[->|[->|[->|[->|[->|[->|[->|[->| ->]]]]]]]]]];
    unfold ideal_device, send_bytes;
    cbn [spec_uses_two_byte_address spec_address_bits_in_select_byte
         spec_select spec_address_bytes Z.leb Z.compare Pos.compare
         Pos.compare_cont Z.eqb Pos.eqb fold_left ideal_bus i2c_start_wait
         i2c_write mode cells pointer];
    unfold addressable in Hmem;
    cbn [spec_uses_two_byte_address spec_address_bits_in_select_byte
         Z.leb Z.compare Pos.compare Pos.compare_cont] in Hmem, Haddr.
  1-2: (assert (Hm : 0 <= mem < 256) by exact Hmem;
        change (2 ^ 0 - 1) with 0;
        rewrite Z.land_0_r, low_byte_of_offset by exact Hextra;
        f_equal; rewrite Z.mod_small by lia; lia).
  1: (assert (Hm : 0 <= mem < 256 * 2 ^ 1) by exact Hmem;
      change (2 ^ 1 - 1) with (Z.ones 1);
      rewrite select_bits_recover, low_byte_of_offset
        by (exact Hextra || exact Haddr || exact Hm || reflexivity || lia);
      f_equal; lia).
  1: (assert (Hm : 0 <= mem < 256 * 2 ^ 2) by exact Hmem;
      change (2 ^ 2 - 1) with (Z.ones 2);
      rewrite select_bits_recover, low_byte_of_offset
        by (exact Hextra || exact Haddr || exact Hm || reflexivity || lia);
      f_equal; lia).
  1: (assert (Hm : 0 <= mem < 256 * 2 ^ 3) by exact Hmem;
      change (2 ^ 3 - 1) with (Z.ones 3);
      rewrite select_bits_recover, low_byte_of_offset
        by (exact Hextra || exact Haddr || exact Hm || reflexivity || lia);
      f_equal; lia).
  all: (assert (Hm : 0 <= mem < 65536) by exact Hmem;
        change (2 ^ 0 - 1) with 0;
        rewrite Z.land_0_r, high_byte_of_offset, low_byte_of_masked_offset
          by (exact Hextra || exact Hm);
        f_equal; lia).
Qed.

Lemma write_pages_done {B : Type} (bus : i2cmaster B) (fuel : nat)
    (page iw sel : Z) (header : Z -> list Z) (data : list Z)
    (datasize pos pages_written : Z) (b : B) :
  write_pages bus fuel page iw sel header data datasize pos datasize
    pages_written b = (datasize, b).
Proof.
  destruct fuel; [reflexivity|]. cbn [write_pages].
  rewrite Z.ltb_irrefl. reflexivity.
Qed.

Lemma map_lookup_seq (f : Z -> option Z) (p : list Z) :
  forall start : nat,
    (forall i : nat, (i < length p)%nat ->
                     f (Z.of_nat (start + i)) = Some (nth i p 0)) ->
    map (fun i => f (Z.of_nat i)) (seq start (length p)) = map Some p.
Proof.
  induction p as [|x p IH]; intros start Hf; [reflexivity|].
  cbn [length seq map]. f_equal.
  - specialize (Hf O ltac:(simpl; lia)). rewrite Nat.add_0_r in Hf. exact Hf.
  - apply IH. intros i Hi.
    specialize (Hf (S i) ltac:(simpl; lia)).
    replace (S start + i)%nat with (start + S i)%nat by lia. exact Hf.
Qed.

Section IdealRuns.

Variables (a : eeprom) (mem_address : Z).
Hypothesis class_supported : supported (eeprom_size a) = true.
Hypothesis address_bits_clear :
  Z.land (eeprom_address a) (2 ^ spec_address_bits_in_select_byte (eeprom_size a) - 1) = 0.
Hypothesis offset_addressable : 0 <= mem_address < addressable (eeprom_size a).

(** A read over the ideal device returns the bytes stored from
    [mem_address] on and leaves the cells as they were. *)
Lemma ideal_read_result (buf : gmap Z Z) (count : Z) (s : ideal) :
  1 <= count < 65536 ->
  cells (snd (eeprom_read (ideal_device (eeprom_size a)) a mem_address buf count s)) = cells s /\
  mode (snd (eeprom_read (ideal_device (eeprom_size a)) a mem_address buf count s)) = Idle /\
  forall j : Z,
    fst (eeprom_read (ideal_device (eeprom_size a)) a mem_address buf count s) !! j =
    if decide (0 <= j < count)
    then Some (default 255 (cells s !! (mem_address + j)))
    else buf !! j.
Proof.
  intros Hcount.
  rewrite eeprom_read_scheme by exact class_supported.
  unfold scheme_read.
  rewrite ideal_addressing
    by (exact class_supported || exact address_bits_clear
        || exact offset_addressable || reflexivity).
  unfold ideal_device at 1 2 3 4 5 6.
  cbn [ideal_bus i2c_stop i2c_start_wait cells pointer mode fst snd].
  unfold ideal_device.
  match goal with
  | |- context [read_bytes (ideal_bus ?k ?m) buf count ?s0] =>
      destruct (ideal_read_bytes k m buf count s0 eq_refl) as [Hc Hb]
  end.
  cbn [cells pointer] in Hc, Hb.
  rewrite (u16_small (count - 1)) in Hb by lia.
  split; [exact Hc|]. split; [reflexivity|].
  intros j. rewrite Hb.
  destruct (decide (0 <= j <= count - 1)); destruct (decide (0 <= j < count));
    try lia; reflexivity.
Qed.

(** A write that stays within the page of [mem_address], and whose first
    address byte is not displaced, stores the data from [mem_address] on. *)
Lemma ideal_write_result (data : list Z) (s : ideal) :
  1 <= Z.of_nat (length data) ->
  mem_address mod spec_page_size (eeprom_size a) + Z.of_nat (length data) <= spec_page_size (eeprom_size a) ->
  (spec_page_size (eeprom_size a) * (mem_address mod spec_page_size (eeprom_size a))) mod 256 = 0 ->
  mode (eeprom_write (ideal_device (eeprom_size a)) a mem_address data
          (Z.of_nat (length data)) s) = Idle /\
  forall o : Z,
    cells (eeprom_write (ideal_device (eeprom_size a)) a mem_address data
             (Z.of_nat (length data)) s) !! o =
    if decide (mem_address <= o < mem_address + Z.of_nat (length data))
    then Some (nth (Z.to_nat (o - mem_address)) data 0)
    else cells s !! o.
Proof.
  intros Hn Hfit Halign.
  pose proof (spec_page_size_bounds (eeprom_size a)) as Hpage.
  set (page := spec_page_size (eeprom_size a)) in *.
  assert (Hpos : 0 <= mem_address mod page < page) by (apply Z.mod_pos_bound; lia).
  assert (Hpage256 : page <= 256).
  { destruct (page <? 256) eqn:E; [apply Z.ltb_lt in E; lia|].
    subst page. unfold spec_page_size in *.
    repeat match goal with
           | |- context [if ?t then _ else _] => destruct t; try lia
           end. }
  rewrite eeprom_write_scheme by exact class_supported.
  unfold scheme_write. fold page.
  set (n := Z.of_nat (length data)) in *.
  destruct (Z.to_nat n) as [|fuel] eqn:Efuel; [lia|].
  cbn [write_pages].
  replace (0 <? n) with true by (symmetry; apply Z.ltb_lt; lia).
  rewrite (Z.mod_small (mem_address mod page)) by lia.
  rewrite page_loop_spec by lia.
  cbn [fst snd].
  replace (0 + Z.min (page - mem_address mod page) (n - 0)) with n by lia.
  replace (Z.min (page - mem_address mod page) (n - 0)) with n by lia.
  rewrite write_pages_done. cbn [snd].
  rewrite ideal_addressing
    by (exact class_supported || exact address_bits_clear
        || exact offset_addressable || exact Halign).
  replace (payload_slice data 0 (Z.to_nat n)) with data
    by (unfold n; rewrite Nat2Z.id; rewrite payload_slice_prefix by lia;
        symmetry; apply firstn_all).
  unfold ideal_device.
  match goal with
  | |- context [send_payload (ideal_bus ?k ?m) data ?s0] =>
      destruct (ideal_send_payload k m data s0 eq_refl) as (Hm & Hp & Hc)
  end.
  cbn [ideal_bus i2c_stop cells mode]. cbn [cells pointer] in Hc.
  split; [reflexivity|].
  exact Hc.
Qed.

End IdealRuns.

(** X7: on every supported capacity class, when the bits of the bus address
    that the class folds address bits into are clear and [mem_address] is
    within the offsets the class can address, [eeprom_read] of count bytes
    (1 to 65535) over the ideal device returns in the buffer, at index j, the
    byte the device holds at offset mem_address + j (0xFF for a cell never
    written), for every j below count; it leaves the other indices of the
    buffer and the cells of the device unchanged, and the bus idle. *)
Theorem read_returns_stored_bytes (a : eeprom) (mem_address : Z)
    (buf : gmap Z Z) (count : Z) (s : ideal) :
  supported (eeprom_size a) = true ->
  Z.land (eeprom_address a)
    (2 ^ spec_address_bits_in_select_byte (eeprom_size a) - 1) = 0 ->
  0 <= mem_address < addressable (eeprom_size a) ->
  1 <= count < 65536 ->
  let r := eeprom_read (ideal_device (eeprom_size a)) a mem_address buf count s in
  cells (snd r) = cells s /\
  mode (snd r) = Idle /\
  forall j : Z,
    fst r !! j =
    if decide (0 <= j < count)
    then Some (default 255 (cells s !! (mem_address + j)))
    else buf !! j.
Proof.
  intros H Haddr Hmem Hcount. cbv zeta.
  apply ideal_read_result; assumption.
Qed.

Lemma read_returns_stored_bytes_witness :
  supported (eeprom_size (device 8)) = true /\
  Z.land (eeprom_address (device 8))
    (2 ^ spec_address_bits_in_select_byte (eeprom_size (device 8)) - 1) = 0 /\
  0 <= 0x120 < addressable (eeprom_size (device 8)) /\
  1 <= 3 < 65536 /\
  cells (snd (eeprom_read (ideal_device 8) (device 8) 0x120 ∅ 3 erased)) = ∅.
Proof.
  assert (Hmem : 0 <= 0x120 < addressable (eeprom_size (device 8)))
    by (vm_compute; split; [discriminate | reflexivity]).
  split; [reflexivity|]. split; [reflexivity|]. split; [exact Hmem|].
  split; [lia|].
  exact (proj1 (read_returns_stored_bytes (device 8) 0x120 ∅ 3 erased
                  eq_refl eq_refl Hmem ltac:(lia))).
Defined.

(** X8: on every supported capacity class, with the folded bits of the bus
    address clear and [mem_address] addressable, a write of at least one
    byte that stays within the page of [mem_address], and for which
    page * (mem_address mod page) is a multiple of 256 (a page-aligned
    offset, or any offset of the 1 Mbit class), stores byte k of the data at
    offset mem_address + k of the ideal device, changes no other cell and
    leaves the bus idle. *)
Theorem write_within_page_stores_payload (a : eeprom) (mem_address : Z)
    (data : list Z) (s : ideal) :
  supported (eeprom_size a) = true ->
  Z.land (eeprom_address a)
    (2 ^ spec_address_bits_in_select_byte (eeprom_size a) - 1) = 0 ->
  0 <= mem_address < addressable (eeprom_size a) ->
  1 <= Z.of_nat (length data) ->
  mem_address mod spec_page_size (eeprom_size a) + Z.of_nat (length data)
    <= spec_page_size (eeprom_size a) ->
  (spec_page_size (eeprom_size a)
   * (mem_address mod spec_page_size (eeprom_size a))) mod 256 = 0 ->
  let s' := eeprom_write (ideal_device (eeprom_size a)) a mem_address data
              (Z.of_nat (length data)) s in
  mode s' = Idle /\
  forall o : Z,
    cells s' !! o =
    if decide (mem_address <= o < mem_address + Z.of_nat (length data))
    then Some (nth (Z.to_nat (o - mem_address)) data 0)
    else cells s !! o.
Proof.
  intros H Haddr Hmem Hn Hfit Halign. cbv zeta.
  apply ideal_write_result; assumption.
Qed.

Lemma write_within_page_stores_payload_witness :
  supported (eeprom_size (device 1024)) = true /\
  Z.land (eeprom_address (device 1024))
    (2 ^ spec_address_bits_in_select_byte (eeprom_size (device 1024)) - 1) = 0 /\
  0 <= 0x105 < addressable (eeprom_size (device 1024)) /\
  1 <= Z.of_nat (length [7; 8; 9]) /\
  0x105 mod spec_page_size (eeprom_size (device 1024)) + Z.of_nat (length [7; 8; 9])
    <= spec_page_size (eeprom_size (device 1024)) /\
  (spec_page_size (eeprom_size (device 1024))
   * (0x105 mod spec_page_size (eeprom_size (device 1024)))) mod 256 = 0 /\
  mode (eeprom_write (ideal_device 1024) (device 1024) 0x105 [7; 8; 9] 3 erased) = Idle.
Proof.
  assert (Hmem : 0 <= 0x105 < addressable (eeprom_size (device 1024)))
    by (vm_compute; split; [discriminate | reflexivity]).
  assert (Hn : 1 <= Z.of_nat (length [7; 8; 9])) by (vm_compute; discriminate).
  assert (Hfit : 0x105 mod spec_page_size (eeprom_size (device 1024))
                 + Z.of_nat (length [7; 8; 9])
                 <= spec_page_size (eeprom_size (device 1024)))
    by (vm_compute; discriminate).
  split; [reflexivity|]. split; [reflexivity|]. split; [exact Hmem|].
  split; [exact Hn|]. split; [exact Hfit|]. split; [reflexivity|].
  exact (proj1 (write_within_page_stores_payload (device 1024) 0x105 [7; 8; 9] erased
                  eq_refl eq_refl Hmem Hn Hfit eq_refl)).
Defined.

(** X9: under the conditions of X8, writing the data and then reading as
    many bytes back from the same offset over the ideal device returns the
    data: the round trip holds for a write within one page whose first
    address byte is not displaced. *)
Theorem write_then_read_within_page (a : eeprom) (mem_address : Z)
    (data : list Z) (buf : gmap Z Z) (s : ideal) :
  supported (eeprom_size a) = true ->
  Z.land (eeprom_address a)
    (2 ^ spec_address_bits_in_select_byte (eeprom_size a) - 1) = 0 ->
  0 <= mem_address < addressable (eeprom_size a) ->
  1 <= Z.of_nat (length data) ->
  mem_address mod spec_page_size (eeprom_size a) + Z.of_nat (length data)
    <= spec_page_size (eeprom_size a) ->
  (spec_page_size (eeprom_size a)
   * (mem_address mod spec_page_size (eeprom_size a))) mod 256 = 0 ->
  let dev := ideal_device (eeprom_size a) in
  let n := Z.of_nat (length data) in
  buffer_bytes
    (fst (eeprom_read dev a mem_address buf n
            (eeprom_write dev a mem_address data n s)))
    (length data) = map Some data /\
  round_trip a mem_address data = map Some data.
Proof.
  intros H Haddr Hmem Hn Hfit Halign dev n.
  pose proof (spec_page_size_bounds (eeprom_size a)) as Hpage.
  assert (Hpos : 0 <= mem_address mod spec_page_size (eeprom_size a)
                 < spec_page_size (eeprom_size a))
    by (apply Z.mod_pos_bound; lia).
  assert (Hn16 : 1 <= n < 65536).
  { subst n. destruct (spec_page_size (eeprom_size a) <? 256); lia. }
  assert (Hany : forall (b0 : gmap Z Z) (s0 : ideal),
             buffer_bytes
               (fst (eeprom_read dev a mem_address b0 n
                       (eeprom_write dev a mem_address data n s0)))
               (length data) = map Some data).
  { intros b0 s0. unfold buffer_bytes.
    apply (map_lookup_seq
             (fun j => fst (eeprom_read dev a mem_address b0 n
                              (eeprom_write dev a mem_address data n s0)) !! j)
             data O).
    intros i Hi. cbn [Nat.add].
    destruct (ideal_read_result a mem_address H Haddr Hmem b0 n
                (eeprom_write dev a mem_address data n s0) Hn16)
      as (_ & _ & Hb).
    fold dev in Hb. rewrite Hb.
    destruct (decide (0 <= Z.of_nat i < n)) as [_|Hout]; [|lia].
    destruct (ideal_write_result a mem_address H Haddr Hmem data s0 Hn Hfit Halign)
      as (_ & Hc).
    fold dev n in Hc. rewrite Hc.
    destruct (decide (mem_address <= mem_address + Z.of_nat i < mem_address + n))
      as [_|Hout]; [|lia].
    replace (Z.to_nat (mem_address + Z.of_nat i - mem_address)) with i by lia.
    reflexivity. }
  split; [apply Hany|].
  unfold round_trip. apply Hany.
Qed.

Lemma write_then_read_within_page_witness :
  supported (eeprom_size (device 8)) = true /\
  Z.land (eeprom_address (device 8))
    (2 ^ spec_address_bits_in_select_byte (eeprom_size (device 8)) - 1) = 0 /\
  0 <= 0x120 < addressable (eeprom_size (device 8)) /\
  1 <= Z.of_nat (length [0xCA; 0xFE; 0xBA; 0xBE]) /\
  0x120 mod spec_page_size (eeprom_size (device 8))
    + Z.of_nat (length [0xCA; 0xFE; 0xBA; 0xBE])
    <= spec_page_size (eeprom_size (device 8)) /\
  (spec_page_size (eeprom_size (device 8))
   * (0x120 mod spec_page_size (eeprom_size (device 8)))) mod 256 = 0 /\
  round_trip (device 8) 0x120 [0xCA; 0xFE; 0xBA; 0xBE] =
    map Some [0xCA; 0xFE; 0xBA; 0xBE].
Proof.
  assert (Hmem : 0 <= 0x120 < addressable (eeprom_size (device 8)))
    by (vm_compute; split; [discriminate | reflexivity]).
  assert (Hn : 1 <= Z.of_nat (length [0xCA; 0xFE; 0xBA; 0xBE]))
    by (vm_compute; discriminate).
  assert (Hfit : 0x120 mod spec_page_size (eeprom_size (device 8))
                 + Z.of_nat (length [0xCA; 0xFE; 0xBA; 0xBE])
                 <= spec_page_size (eeprom_size (device 8)))
    by (vm_compute; discriminate).
  split; [reflexivity|]. split; [reflexivity|]. split; [exact Hmem|].
  split; [exact Hn|]. split; [exact Hfit|]. split; [reflexivity|].
  exact (proj2 (write_then_read_within_page (device 8) 0x120
                  [0xCA; 0xFE; 0xBA; 0xBE] ∅ erased
                  eq_refl eq_refl Hmem Hn Hfit eq_refl)).
Defined.

(** ** What a write never does *)

Lemma render_no_read_no_stop (l : list (Z * list Z)) :
  forallb (fun e => negb (is_byte_in e) && negb (is_stop e))
    (flat_map txn_events l) = true.
Proof.
  induction l as [|[sel bs] l IH]; [reflexivity|].
  cbn [flat_map txn_events fst snd]. rewrite forallb_app, IH, andb_true_r.
  cbn [forallb is_byte_in is_stop negb andb].
  clear. induction bs as [|x bs IHbs]; [reflexivity | exact IHbs].
Qed.

(** X10: on every supported capacity class, [eeprom_write] never reads from
    the bus and calls [i2c_stop] exactly once, as the last primitive of the
    call: everything before the final stop is starts and byte writes. *)
Theorem write_stops_once_at_the_end {B : Type} (bus : i2cmaster B)
    (a : eeprom) (mem_address : Z) (data : list Z) (datasize : Z) (b : B) :
  supported (eeprom_size a) = true ->
  0 <= datasize < 65536 ->
  exists pre : list event,
    write_trace bus a mem_address data datasize b = pre ++ [E_stop] /\
    forallb (fun e => negb (is_byte_in e) && negb (is_stop e)) pre = true.
Proof.
  intros H Hn. eexists. split.
  - apply write_trace_chunks; assumption.
  - apply render_no_read_no_stop.
Qed.

Lemma write_stops_once_at_the_end_witness :
  supported (eeprom_size (device 8)) = true /\
  0 <= 40 < 65536 /\
  exists pre : list event,
    write_trace null_bus (device 8) 10 (ramp 40) 40 tt = pre ++ [E_stop] /\
    forallb (fun e => negb (is_byte_in e) && negb (is_stop e)) pre = true.
Proof.
  split; [reflexivity|]. split; [lia|].
  exact (write_stops_once_at_the_end null_bus (device 8) 10 (ramp 40) 40 tt
           eq_refl ltac:(lia)).
Defined.

(** ** A read of no bytes *)

(** X11: on every supported capacity class, [eeprom_read] with count 0 does
    not return at once: the 16-bit [datasize - 1] wraps to 65535, so the call
    issues 65535 acknowledged reads and one read without acknowledge, and
    stores a byte at every index from 0 to 65535 of the buffer. *)
Theorem read_count_zero_wraps {B : Type} (bus : i2cmaster B) (a : eeprom)
    (mem_address : Z) (buf : gmap Z Z) (b : B) :
  supported (eeprom_size a) = true ->
  List.filter is_byte_in (read_trace bus a mem_address buf 0 b) =
    repeat E_readAck (Z.to_nat 65535) ++ [E_readNak] /\
  forall j : Z,
    0 <= j <= 65535 ->
    is_Some (fst (eeprom_read bus a mem_address buf 0 b) !! j).
Proof.
  intros H.
  assert (Hwrap : u16 (0 - 1) = 65535) by reflexivity.
  split.
  - rewrite (read_trace_supported bus a mem_address buf 0 b H).
    cbv zeta. rewrite Hwrap.
    generalize (Z.to_nat 65535). intros k.
    rewrite List.filter_app. cbn [List.filter is_byte_in app].
    rewrite filter_byte_in_header, filter_byte_in_acks. reflexivity.
  - intros j Hj.
    apply (read_buffer_supported bus a mem_address buf 0 b j H).
    rewrite Hwrap. exact Hj.
Qed.

Lemma read_count_zero_wraps_witness :
  supported (eeprom_size (device 1)) = true /\
  is_Some (fst (eeprom_read null_bus (device 1) 0 ∅ 0 tt) !! 65535).
Proof.
  split; [reflexivity|].
  exact (proj2 (read_count_zero_wraps null_bus (device 1) 0 ∅ tt eq_refl)
           65535 ltac:(lia)).
Defined.

(** ** The capacity table on the trace *)

Lemma spec_address_bits_range (c : Z) :
  0 <= spec_address_bits_in_select_byte c <= 3.
Proof.
  unfold spec_address_bits_in_select_byte.
  repeat match goal with
         | |- context [if ?t then _ else _] => destruct t
         end; lia.
Qed.

(** With a bus address that fits in a byte, the select value is the bus
    address with the low [bits] bits of [mem_address >> 8] ORed in. *)
Lemma spec_select_folds (addr bits mem_address : Z) :
  0 <= addr < 256 -> 0 <= bits <= 8 ->
  spec_select addr bits mem_address =
  Z.lor addr (Z.shiftr mem_address 8 mod 2 ^ bits).
Proof.
  intros Haddr Hbits. unfold spec_select.
  destruct (bits =? 0) eqn:E.
  - apply Z.eqb_eq in E. subst bits.
    change (2 ^ 0) with 1. rewrite Z.mod_1_r, Z.lor_0_r. reflexivity.
  - replace (2 ^ bits - 1) with (Z.ones bits) by (rewrite Z.ones_equiv; lia).
    rewrite Z.land_ones by lia.
    set (y := Z.shiftr mem_address 8 mod 2 ^ bits).
    assert (Hy : 0 <= y < 2 ^ bits) by (apply Z.mod_pos_bound; lia).
    assert (Hpow : 2 ^ bits <= 2 ^ 8) by (apply Z.pow_le_mono_r; lia).
    change (2 ^ 8) with 256 in Hpow.
    unfold u8. change 256 with (2 ^ 8). rewrite <- Z.land_ones by lia.
    rewrite Z.land_lor_distr_l, !Z.land_ones by lia.
    change (2 ^ 8) with 256.
    rewrite (Z.mod_small addr) by lia. rewrite (Z.mod_small y) by lia.
    reflexivity.
Qed.

(** C3: for every supported capacity class, the page size that segments a
    write and the number of high address bits folded into the select value
    are those of the specification's table, as seen on the bus.  With
    [page], [bits] and the address width read from the table for the class:
    every start of a write and of a read carries the bus address with the
    low [bits] bits of [mem_address >> 8] ORed in; the trace of a write is
    its chunks, each the start, the address bytes (one or two) and the
    payload bytes up to the end of the [page]-byte page or of the data,
    followed by the single stop, so no transaction carries more than [page]
    payload bytes and a write of at least one byte has one transaction per
    [page]-byte page it touches; the trace of a read is the start, the
    address bytes, the stop, the read-mode start and the reads.  The table
    is: page size 8 and 0 bits for classes 1 and 2; 16 with 1, 2, 3 bits for
    classes 4, 8, 16; 32 and 0 bits with two address bytes for classes 32
    and 64; 64 for 128 and 256; 128 for 512; 256 for 1024. *)
Theorem capacity_table_on_the_trace {B : Type} (bus : i2cmaster B) (a : eeprom)
    (mem_address : Z) (data : list Z) (buf : gmap Z Z) (count : Z) (b : B) :
  supported (eeprom_size a) = true ->
  0 <= eeprom_address a < 256 ->
  Z.of_nat (length data) < 65536 ->
  let c := eeprom_size a in
  let page := spec_page_size c in
  let bits := spec_address_bits_in_select_byte c in
  let two_byte := spec_uses_two_byte_address c in
  let sel := Z.lor (eeprom_address a) (Z.shiftr mem_address 8 mod 2 ^ bits) in
  let n := Z.of_nat (length data) in
  let wtrace := write_trace bus a mem_address data n b in
  wtrace =
    flat_map txn_events
      (write_chunks (Z.to_nat n) page sel
         (fun pos => spec_address_bytes two_byte mem_address (page * pos))
         data n (mem_address mod page) 0)
    ++ [E_stop] /\
  Forall (fun t => fst t = sel /\
                   (length (snd t) <= address_width c + Z.to_nat page)%nat)
    (transactions wtrace) /\
  (1 <= n ->
   Z.of_nat (length (transactions wtrace)) =
     (mem_address mod page + n - 1) / page + 1) /\
  read_trace bus a mem_address buf count b =
    (E_start_wait sel I2C_WRITE
     :: map (fun x => E_write (u8 x)) (spec_address_bytes two_byte mem_address 0))
    ++ [E_stop; E_start_wait sel I2C_READ]
    ++ repeat E_readAck (Z.to_nat (u16 (count - 1)))
    ++ [E_readNak; E_stop] /\
  map spec_page_size capacity_classes =
    [8; 8; 16; 16; 16; 32; 32; 64; 64; 128; 256] /\
  map spec_address_bits_in_select_byte capacity_classes =
    [0; 0; 1; 2; 3; 0; 0; 0; 0; 0; 0] /\
  map spec_uses_two_byte_address capacity_classes =
    [false; false; false; false; false; true; true; true; true; true; true].
Proof.
  intros H Haddr Hn c page bits two_byte sel n wtrace.
  pose proof (spec_page_size_bounds c) as Hpage. fold page in Hpage.
  pose proof (spec_address_bits_range c) as Hbits. fold bits in Hbits.
  assert (Hpos : 0 <= mem_address mod page < page) by (apply Z.mod_pos_bound; lia).
  assert (Hsel : spec_select (eeprom_address a) bits mem_address = sel)
    by (apply spec_select_folds; lia).
  assert (Hw : wtrace =
               flat_map txn_events
                 (write_chunks (Z.to_nat n) page sel
                    (fun pos => spec_address_bytes two_byte mem_address (page * pos))
                    data n (mem_address mod page) 0)
               ++ [E_stop]).
  { subst wtrace. rewrite write_trace_chunks by (try exact H; lia).
    fold c. fold page. fold bits. fold two_byte. rewrite Hsel. reflexivity. }
  split; [exact Hw|].
  split.
  { rewrite Hw. unfold transactions. rewrite transactions_from_render. cbn [app].
    eapply List.Forall_impl;
      [|apply (write_chunks_bounded page sel _ data n (address_width c));
        [intros pos; apply spec_address_bytes_length | lia | lia]].
    intros t [Hs Hl]. split; [exact Hs | lia]. }
  split.
  { intros Hn1. rewrite Hw. unfold transactions.
    rewrite transactions_from_render. cbn [app].
    rewrite (write_chunks_count page sel _ data n) by lia.
    rewrite Z.sub_0_r. reflexivity. }
  split.
  { rewrite (read_trace_supported bus a mem_address buf count b H).
    cbv zeta. fold c. fold bits. fold two_byte. rewrite Hsel. reflexivity. }
  repeat split; reflexivity.
Qed.

Lemma capacity_table_on_the_trace_witness :
  supported (eeprom_size (device 8)) = true /\
  0 <= eeprom_address (device 8) < 256 /\
  Z.of_nat (length (ramp 20)) < 65536 /\
  write_trace null_bus (device 8) 0x10A (ramp 20) 20 tt =
    E_start_wait 0xA1 I2C_WRITE :: E_write 170
      :: map E_write (firstn 6 (ramp 20))
    ++ E_start_wait 0xA1 I2C_WRITE :: E_write 10
      :: map E_write (skipn 6 (ramp 20))
    ++ [E_stop].
Proof.
  assert (Haddr : 0 <= eeprom_address (device 8) < 256)
    by (vm_compute; split; [discriminate | reflexivity]).
  assert (Hn : Z.of_nat (length (ramp 20)) < 65536) by reflexivity.
  split; [reflexivity|]. split; [exact Haddr|]. split; [exact Hn|].
  pose proof (capacity_table_on_the_trace null_bus (device 8) 0x10A (ramp 20)
                ∅ 3 tt eq_refl Haddr Hn) as Hw.
  cbv zeta in Hw. destruct Hw as [Hw _].
  vm_compute in Hw |- *. exact Hw.
Defined.
